(** * action-gh-release: the release workflow of [github.ts] and [main.ts]

    A shallow embedding of the find-or-update-or-create-or-retry workflow
    ([release]), of the draft lookup of [GitHubReleaser.findRelease], of
    [publishRelease], [mimeOrDefault] and of the action's entry point
    [run], followed by the properties the specification states about them.

    Programs are trees of requests ([Prog]); a tree is run against a
    handler ([exec]) that answers every request and threads the state of
    the outside world.  Unbounded recursion ([release] retrying, the
    [for await] over release pages) is cut by a fuel argument; running out
    of fuel is the outcome [Exhausted], which stands for "has not finished
    yet" and nothing else. *)

From stdpp Require Import base option list gmap strings.
From Stdlib Require Import Ascii ZArith Lia.

Open Scope Z_scope.

(** ** JavaScript values used by the sources *)

(** [a || b] on a value that may be [undefined] or the empty string. *)
Definition truthy_string (s : option string) : bool :=
  match s with
  | Some s => negb (String.eqb s "")
  | None => false
  end.

Definition or_string (a : option string) (b : string) : string :=
  match a with
  | Some s => if String.eqb s "" then b else s
  | None => b
  end.

(** [!x], [x || false], [x && ...] on a flag that may be [undefined]. *)
Definition truthy_flag (b : option bool) : bool :=
  match b with
  | Some true => true
  | _ => false
  end.

(** An array is truthy whatever it holds; only [undefined] is falsy. *)
Definition truthy_array {A} (l : option (list A)) : bool :=
  match l with
  | Some _ => true
  | None => false
  end.

(** [`${x}`]: interpolation writes an absent value as the text
    [undefined]. *)
Definition interpolate (s : option string) : string :=
  match s with
  | Some s => s
  | None => "undefined"
  end.

(** [s.split(sep)] for a one-character separator: the first field and the
    fields after it (the array is never empty). *)
Fixpoint split_on (sep : ascii) (s : string) : string * list string :=
  match s with
  | EmptyString => (EmptyString, [])
  | String c rest =>
      let '(h, t) := split_on sep rest in
      if Ascii.eqb c sep then (EmptyString, h :: t) else (String c h, t)
  end.

(** [const [owner, repo] = s.split("/")]: the second name is [undefined]
    when the string holds no slash. *)
Definition destructure_repository (s : string) : string * option string :=
  let '(h, t) := split_on "/"%char s in (h, head t).

Fixpoint drop_chars (n : nat) (s : string) : string :=
  match n, s with
  | O, _ => s
  | S n', String _ rest => drop_chars n' rest
  | S _, EmptyString => EmptyString
  end.

(** [s.replace(pat, rep)] with a string pattern: only the first occurrence
    is replaced.  ([rep] is used as is: the sources only pass [""].) *)
Fixpoint replace_first (pat rep s : string) : string :=
  match s with
  | EmptyString => if String.prefix pat EmptyString then rep else EmptyString
  | String c rest =>
      if String.prefix pat s
      then rep +:+ drop_chars (String.length pat) s
      else String c (replace_first pat rep rest)
  end.

(** ** Data model ([github.ts], lines 7-21) *)

Record ReleaseAsset := mkAsset {
  asset_name : string;
  asset_mime : string;
  asset_size : Z;
  asset_file : list Byte.byte
}.

Record Release := mkRelease {
  id : Z;
  upload_url : string;
  html_url : string;
  tag_name : string;
  body : string;
  target_commitish : string
}.

(** What a rejected promise carries: [error.status] (absent on errors that
    are not HTTP errors) and [error.message]. *)
Record Error := mkError {
  status : option Z;
  message : string
}.

Inductive Result (A : Type) : Type :=
| Ok (a : A)
| Err (e : Error).
Arguments Ok {A} a.
Arguments Err {A} e.

(** Modelled from the spec: the [Config] interface is declared in [util.ts],
    which is not among the sources.  The fields are the ones [github.ts]
    and [main.ts] read ("repository identifier, ref, token, tag name
    override, release name, body text, draft flag, prerelease flag,
    fail-on-unmatched-files flag, draft-until-assets-uploaded flag, list of
    file-glob patterns"); every user input may be absent, as the [||]
    defaults and the [boolean | undefined] parameters of the sources
    show. *)
Record Config := mkConfig {
  github_token : string;
  github_ref : string;
  github_repository : string;
  input_name : option string;
  input_tag_name : option string;
  input_body : option string;
  input_files : option (list string);
  input_draft : option bool;
  input_prerelease : option bool;
  input_fail_on_unmatched_files : option bool;
  input_draft_until_assets_uploaded : option bool
}.

Definition set_input_draft (b : bool) (c : Config) : Config :=
  {| github_token := github_token c;
     github_ref := github_ref c;
     github_repository := github_repository c;
     input_name := input_name c;
     input_tag_name := input_tag_name c;
     input_body := input_body c;
     input_files := input_files c;
     input_draft := Some b;
     input_prerelease := input_prerelease c;
     input_fail_on_unmatched_files := input_fail_on_unmatched_files c;
     input_draft_until_assets_uploaded := input_draft_until_assets_uploaded c |}.

(** Modelled from the spec: the helpers imported from [util.ts], [mime],
    [path] and [fs] are not among the sources; they are parameters of the
    development.  [getType] answers [None] for JavaScript's [null]. *)
Record Util := mkUtil {
  releaseBody : Config -> option string;
  isTag : string -> bool;
  unmatchedPatterns : list string -> list string;
  paths : list string -> list string;
  getType : string -> option string;
  basename : string -> string;
  lstatSize : string -> Z;
  readFileSync : string -> list Byte.byte
}.

(** ** Request parameters ([github.ts], lines 23-63) *)

Record TagParams := mkTagParams {
  tp_owner : string;
  tp_repo : option string;
  tp_tag : string
}.

Record FindParams := mkFindParams {
  fp_owner : string;
  fp_repo : option string;
  fp_tag : string;
  fp_draft : bool
}.

Record CreateParams := mkCreateParams {
  cp_owner : string;
  cp_repo : option string;
  cp_tag_name : string;
  cp_name : string;
  cp_body : option string;
  cp_draft : option bool;
  cp_prerelease : option bool
}.

Record UpdateParams := mkUpdateParams {
  up_owner : string;
  up_repo : option string;
  up_release_id : Z;
  up_tag_name : option string;
  up_target_commitish : option string;
  up_name : option string;
  up_body : option string;
  up_draft : option bool;
  up_prerelease : option bool
}.

Record ListParams := mkListParams {
  lp_owner : string;
  lp_repo : option string;
  lp_per_page : Z;
  lp_page : nat
}.

(** ** Console output *)

Inductive Stream := StdLog | StdWarn.

(** One constructor per message template of the sources, holding the
    interpolated values. *)
Inductive ConsoleMsg :=
| LookingForDraft (tag : string)
| FoundDraft (tag : string)
| LookingForNonDraft (tag : string)
| Uploading (name : string)
| CreatingRelease (tag : string)
| ReleaseFailedRetrying (st : option Z)
| UnexpectedError (ref : string) (e : Error)
| PatternUnmatched (pattern : string)
| MarkingDraft
| NoValidFiles (files : list string)
| PublishingDraft
| ReleaseReady (url : string).

(** ** Programs *)

Inductive Prog (E : Type -> Type) (A : Type) : Type :=
| Ret (a : A)
| Vis {X : Type} (e : E X) (k : X -> Prog E A).
Arguments Ret {E A} a.
Arguments Vis {E A X} e k.

Fixpoint pbind {E A B} (p : Prog E A) (f : A -> Prog E B) : Prog E B :=
  match p with
  | Ret a => f a
  | Vis e k => Vis e (fun x => pbind (k x) f)
  end.

(** How an [async] function ends: it returns, it throws, or (in this model
    only) it has used up its fuel before doing either. *)
Inductive Outcome (A : Type) : Type :=
| Returned (a : A)
| Threw (e : Error)
| Exhausted.
Arguments Returned {A} a.
Arguments Threw {A} e.
Arguments Exhausted {A}.

Abbreviation M E A := (Prog E (Outcome A)).

Definition ret {E A} (a : A) : M E A := Ret (Returned a).
Definition throw {E A} (e : Error) : M E A := Ret (Threw e).
Definition exhausted {E A} : M E A := Ret Exhausted.

Definition bind {E A B} (m : M E A) (f : A -> M E B) : M E B :=
  pbind m (fun o =>
    match o with
    | Returned a => f a
    | Threw e => Ret (Threw e)
    | Exhausted => Ret Exhausted
    end).

(** [try { m } catch (error) { h error }] *)
Definition try_catch {E A} (m : M E A) (h : Error -> M E A) : M E A :=
  pbind m (fun o =>
    match o with
    | Returned a => Ret (Returned a)
    | Threw e => h e
    | Exhausted => Ret Exhausted
    end).

(** An effect that cannot fail. *)
Definition perform {E X} (e : E X) : M E X := Vis e (fun x => Ret (Returned x)).

(** [await] on the promise of a request: the value, or the rejection
    thrown. *)
Definition await {E X} (e : E (Result X)) : M E X :=
  Vis e (fun r =>
    match r with
    | Ok x => Ret (Returned x)
    | Err err => Ret (Threw err)
    end).

Declare Scope prog_scope.
Delimit Scope prog_scope with prog.
Notation "x <- m ;; k" := (bind m (fun x => k))
  (at level 100, m at next level, right associativity) : prog_scope.
Notation "m ;; k" := (bind m (fun _ => k))
  (at level 100, right associativity) : prog_scope.
Open Scope prog_scope.

(** Running a program: the handler answers each request and moves the
    world on. *)
Definition Handler (E : Type -> Type) (W : Type) : Type :=
  forall X, E X -> W -> X * W.

Fixpoint exec {E W A} (h : Handler E W) (p : Prog E A) (w : W) : A * W :=
  match p with
  | Ret a => (a, w)
  | Vis e k => let '(x, w') := h _ e w in exec h (k x) w'
  end.

(** A request together with the answer it got. *)
Inductive Obs (E : Type -> Type) : Type :=
| Observed {X : Type} (e : E X) (x : X).
Arguments Observed {E X} e x.

(** [Run p tr a]: [p] can issue the requests of [tr], get their answers,
    and end with [a]. *)
Fixpoint Run {E A} (p : Prog E A) (tr : list (Obs E)) (a : A) : Prop :=
  match p with
  | Ret b => tr = [] /\ a = b
  | Vis e k => exists x tr', tr = Observed e x :: tr' /\ Run (k x) tr' a
  end.

(** The requests of a run, in order. *)
Fixpoint trace {E W A} (h : Handler E W) (p : Prog E A) (w : W) : list (Obs E) :=
  match p with
  | Ret _ => []
  | Vis e k => let '(x, w') := h _ e w in Observed e x :: trace h (k x) w'
  end.

(** ** The [Releaser] interface ([github.ts], lines 23-63) *)

(** Effects every layer can perform: writing to the console. *)
Class Console (E : Type -> Type) := console : Stream -> ConsoleMsg -> E unit.

(** An [AsyncIterableIterator<{ data: Release[] }>]: [it_next] is one
    call of [next()], answering the page and the iterator's new state, or
    [None] once the iteration is done. *)
Record PageIterator (E : Type -> Type) := mkPageIterator {
  it_state : Type;
  it_start : it_state;
  it_next : it_state -> M E (option (list Release * it_state))
}.
Arguments it_state {E} p.
Arguments it_start {E} p.
Arguments it_next {E} p st.

Record Releaser (E : Type -> Type) := mkReleaser {
  getReleaseByTag : TagParams -> M E Release;
  findRelease : FindParams -> M E Release;
  createRelease : CreateParams -> M E Release;
  updateRelease : UpdateParams -> M E Release;
  allReleases : string -> option string -> PageIterator E
}.
Arguments getReleaseByTag {E} r p.
Arguments findRelease {E} r p.
Arguments createRelease {E} r p.
Arguments updateRelease {E} r p.
Arguments allReleases {E} r owner repo.

(** ** The GitHub client and the action toolkit *)

(** The calls [github.ts] and [main.ts] make on [GitHub], [console] and
    [@actions/core].  A page of [listReleases] comes with the flag that
    tells the paginating iterator whether another page follows. *)
Inductive GitHubE : Type -> Type :=
| GetReleaseByTagReq (p : TagParams) : GitHubE (Result Release)
| ListReleasesReq (p : ListParams) : GitHubE (Result (list Release * bool))
| CreateReleaseReq (p : CreateParams) : GitHubE (Result Release)
| UpdateReleaseReq (p : UpdateParams) : GitHubE (Result Release)
| UploadReleaseAssetReq (url : string) (a : ReleaseAsset) : GitHubE (Result unit)
| ConsoleOut (s : Stream) (m : ConsoleMsg) : GitHubE unit
| SetFailed (msg : string) : GitHubE unit
| SetOutput (name value : string) : GitHubE unit.

#[export] Instance GitHubE_console : Console GitHubE := ConsoleOut.

(** Requests that go to the remote service. *)
Definition is_network {X} (e : GitHubE X) : bool :=
  match e with
  | GetReleaseByTagReq _ | ListReleasesReq _ | CreateReleaseReq _
  | UpdateReleaseReq _ | UploadReleaseAssetReq _ _ => true
  | ConsoleOut _ _ | SetFailed _ | SetOutput _ _ => false
  end.

Definition obs_is_network (o : Obs GitHubE) : bool :=
  match o with
  | Observed e _ => is_network e
  end.

Definition is_list_request {X} (e : GitHubE X) : bool :=
  match e with
  | ListReleasesReq _ => true
  | _ => false
  end.

Definition obs_is_list_request (o : Obs GitHubE) : bool :=
  match o with
  | Observed e _ => is_list_request e
  end.

(** ** [class GitHubReleaser] ([github.ts], lines 65-138) *)

Definition tag_matches (tag : string) (release : Release) : bool :=
  String.eqb (tag_name release) tag.

(** The [for await] loop of [findRelease]: [Some release] when the body
    returned from inside the loop, [None] when the iteration ended. *)
Fixpoint scan_pages {E} `{Console E} (fuel : nat) (it : PageIterator E)
    (st : it_state it) (tag : string) : M E (option Release) :=
  match fuel with
  | O => exhausted
  | S fuel' =>
      response <- it_next it st ;;
      match response with
      | None => ret None
      | Some (data, st') =>
          match List.find (tag_matches tag) data with
          | Some release =>
              perform (console StdLog (FoundDraft (tag_name release))) ;;
              ret (Some release)
          | None => scan_pages fuel' it st' tag
          end
      end
  end.

Module GitHubReleaser.

Definition getReleaseByTag (params : TagParams) : M GitHubE Release :=
  await (GetReleaseByTagReq params).

Definition createRelease (params : CreateParams) : M GitHubE Release :=
  await (CreateReleaseReq params).

Definition updateRelease (params : UpdateParams) : M GitHubE Release :=
  await (UpdateReleaseReq params).

(** Modelled from the spec: [github.paginate.iterator] belongs to the
    GitHub client, which is not among the sources ("a lazy,
    restartable-per-call sequence of fixed-size pages (100 items) ...
    bounded by server data").  Pages are asked for one by one, from page
    1, as long as the last answer announced a next page. *)
Definition next_page (owner : string) (repo : option string)
    (st : option nat) : M GitHubE (option (list Release * option nat)) :=
  match st with
  | None => ret None
  | Some page =>
      response <- await (ListReleasesReq
        {| lp_owner := owner; lp_repo := repo;
           lp_per_page := 100; lp_page := page |}) ;;
      let '(data, more) := response in
      ret (Some (data, if more : bool then Some (S page) else None))
  end.

Definition allReleases (owner : string) (repo : option string)
    : PageIterator GitHubE :=
  {| it_state := option nat;
     it_start := Some 1%nat;
     it_next := next_page owner repo |}.

(** [pages] bounds the number of pages one lookup may read. *)
Definition findRelease (pages : nat) (params : FindParams)
    : M GitHubE Release :=
  found <-
    (if fp_draft params then
       perform (console StdLog (LookingForDraft (fp_tag params))) ;;
       let it := allReleases (fp_owner params) (fp_repo params) in
       scan_pages pages it (it_start it) (fp_tag params)
     else ret None) ;;
  match found with
  | Some release => ret release
  | None =>
      perform (console StdLog (LookingForNonDraft (fp_tag params))) ;;
      getReleaseByTag
        {| tp_owner := fp_owner params; tp_repo := fp_repo params;
           tp_tag := fp_tag params |}
  end.

Definition releaser (pages : nat) : Releaser GitHubE :=
  mkReleaser GitHubE getReleaseByTag (findRelease pages) createRelease
    updateRelease allReleases.

End GitHubReleaser.

(** ** [asset], [mimeOrDefault], [upload] ([github.ts], lines 140-169) *)

Definition mimeOrDefault (u : Util) (path : string) : string :=
  or_string (getType u path) "application/octet-stream".

Definition asset (u : Util) (path : string) : ReleaseAsset :=
  {| asset_name := basename u path;
     asset_mime := mimeOrDefault u path;
     asset_size := lstatSize u path;
     asset_file := readFileSync u path |}.

Definition upload (u : Util) (url path : string) : M GitHubE unit :=
  let a := asset u path in
  perform (console StdLog (Uploading (asset_name a))) ;;
  await (UploadReleaseAssetReq url a).

(** ** [release] and [publishRelease] ([github.ts], lines 171-256) *)

Definition status_is (n : Z) (error : Error) : bool :=
  match status error with
  | Some s => Z.eqb s n
  | None => false
  end.

Definition resolve_tag (config : Config) : string :=
  or_string (input_tag_name config)
    (replace_first "refs/tags/" "" (github_ref config)).

Fixpoint release {E} `{Console E} (u : Util) (releaser : Releaser E)
    (fuel : nat) (config : Config) : M E Release :=
  match fuel with
  | O => exhausted
  | S fuel' =>
      let '(owner, repo) := destructure_repository (github_repository config) in
      let tag := resolve_tag config in
      try_catch
        (existingRelease <- findRelease releaser
           {| fp_owner := owner; fp_repo := repo; fp_tag := tag;
              fp_draft := truthy_flag (input_draft config) |} ;;
         let release_id := id existingRelease in
         let target_commitish := target_commitish existingRelease in
         let tag_name := tag in
         let name := or_string (input_name config) tag in
         let body :=
           body existingRelease +:+ String "010"%char
             (interpolate (releaseBody u config)) in
         let draft := input_draft config in
         let prerelease := input_prerelease config in
         release <- updateRelease releaser
           {| up_owner := owner; up_repo := repo;
              up_release_id := release_id;
              up_tag_name := Some tag_name;
              up_target_commitish := Some target_commitish;
              up_name := Some name;
              up_body := Some body;
              up_draft := draft;
              up_prerelease := prerelease |} ;;
         ret release)
        (fun error =>
           if status_is 404 error then
             let tag_name := tag in
             let name := or_string (input_name config) tag in
             let body := releaseBody u config in
             let draft := input_draft config in
             let prerelease := input_prerelease config in
             perform (console StdLog (CreatingRelease tag_name)) ;;
             try_catch
               (release <- createRelease releaser
                  {| cp_owner := owner; cp_repo := repo;
                     cp_tag_name := tag_name;
                     cp_name := name;
                     cp_body := body;
                     cp_draft := draft;
                     cp_prerelease := prerelease |} ;;
                ret release)
               (fun error =>
                  perform (console StdLog
                    (ReleaseFailedRetrying (status error))) ;;
                  release u releaser fuel' config)
           else
             perform (console StdLog
               (UnexpectedError (github_ref config) error)) ;;
             throw error)
  end.

Definition publishRelease {E} (releaser : Releaser E) (config : Config)
    (releaseId : Z) : M E Release :=
  let '(owner, repo) := destructure_repository (github_repository config) in
  let tag := resolve_tag config in
  publishedRelease <- updateRelease releaser
    {| up_owner := owner; up_repo := repo;
       up_release_id := releaseId;
       up_tag_name := None;
       up_target_commitish := None;
       up_name := None;
       up_body := None;
       up_draft := Some false;
       up_prerelease := None |} ;;
  ret publishedRelease.

(** ** [run] ([main.ts]) *)

(** [xs.forEach(f)] for a callback with effects. *)
Fixpoint for_each {E A} (xs : list A) (f : A -> M E unit) : M E unit :=
  match xs with
  | [] => ret tt
  | x :: rest => f x ;; for_each rest f
  end.

(** A call of an [async] function whose promise is dropped: whatever it
    settles to, the caller goes on. *)
Definition detached {E A} (m : M E A) : M E unit :=
  pbind m (fun _ => Ret (Returned tt)).

(** Objects live in a heap and variables hold references: [let
    initialConfig = config] copies the reference, not the object. *)
Abbreviation Ref := nat.
Abbreviation Heap := (gmap nat Config).

#[export] Instance Config_inhabited : Inhabited Config :=
  populate (mkConfig "" "" "" None None None None None None None None).

Definition deref (heap : Heap) (r : Ref) : Config := heap !!! r.

Definition assign_input_draft (heap : Heap) (r : Ref) (b : bool) : Heap :=
  <[r := set_input_draft b (deref heap r)]> heap.

Definition requires_a_tag : Error :=
  mkError None "⚠️ GitHub Releases requires a tag".

Definition unmatched_files : Error :=
  mkError None "⚠️ There were unmatched files".

(** The [try] block of [run] from [let initialConfig = config] on. *)
Definition release_and_upload (u : Util) (fuel pages : nat) (heap : Heap)
    (config : Ref) : M GitHubE unit :=
  let initialConfig : Ref := config in
  heap <-
    (if truthy_flag (input_draft_until_assets_uploaded (deref heap config))
     then
       perform (console StdLog MarkingDraft) ;;
       ret (assign_input_draft heap initialConfig true)
     else ret heap) ;;
  let releaser := GitHubReleaser.releaser pages in
  rel <- release u releaser fuel (deref heap initialConfig) ;;
  match input_files (deref heap config) with
  | Some input_files =>
      let files := paths u input_files in
      (if bool_decide (length files = 0%nat)
       then perform (console StdWarn (NoValidFiles input_files))
       else ret tt) ;;
      for_each files (fun path =>
        detached (upload u (upload_url rel) path))
  | None => ret tt
  end ;;
  (if truthy_flag (input_draft_until_assets_uploaded (deref heap config))
      && negb (truthy_flag (input_draft (deref heap config)))
   then
     perform (console StdLog PublishingDraft) ;;
     let releaseId := id rel in
     publishRelease releaser (deref heap config) releaseId ;;
     ret tt
   else ret tt) ;;
  perform (console StdLog (ReleaseReady (html_url rel))) ;;
  perform (SetOutput "url" (html_url rel)) ;;
  perform (SetOutput "upload_url" (upload_url rel)).

(** The [catch] block of [run]. *)
Definition report_failure (error : Error) : M GitHubE unit :=
  perform (SetFailed (message error)).

(** [parsed] is the object [parseConfig(env)] returns; [fuel] bounds the
    retries of [release] and [pages] the pages of one lookup. *)
Definition run (u : Util) (fuel pages : nat) (parsed : Config)
    : M GitHubE unit :=
  try_catch
    (let config : Ref := 0%nat in
     let heap : Heap := {[ config := parsed ]} in
     (if negb (truthy_string (input_tag_name (deref heap config)))
         && negb (isTag u (github_ref (deref heap config)))
      then throw requires_a_tag else ret tt) ;;
     match input_files (deref heap config) with
     | Some input_files =>
         let patterns := unmatchedPatterns u input_files in
         for_each patterns (fun pattern =>
           perform (console StdWarn (PatternUnmatched pattern))) ;;
         if bool_decide (0 < length patterns)%nat
            && truthy_flag (input_fail_on_unmatched_files (deref heap config))
         then throw unmatched_files else ret tt
     | None => ret tt
     end ;;
     release_and_upload u fuel pages heap config)
    report_failure.

(** ** The remote service *)

(** Modelled from the spec: the remote service is not part of the
    repository ("Release: remote entity with identifier, upload target,
    public URL, tag, body, target commit", "optionally marked draft or
    prerelease").  A release as the service keeps it: the repository it
    belongs to, the fields the client sees, and the fields only requests
    mention. *)
Record Stored := mkStored {
  st_owner : string;
  st_repo : option string;
  st_release : Release;
  st_name : string;
  st_draft : bool;
  st_prerelease : bool
}.

(** Newest release first; [next_id] is the identifier the next created
    release gets. *)
Record Server := mkServer {
  next_id : Z;
  releases : list Stored;
  uploads : list (string * string)
}.

Definition not_found : Error := mkError (Some 404) "Not Found".
Definition conflict : Error := mkError (Some 409) "Conflict".

Definition same_repo (owner : string) (repo : option string) (s : Stored) : bool :=
  bool_decide (st_owner s = owner /\ st_repo s = repo).

Definition has_tag (owner : string) (repo : option string) (tag : string)
    (s : Stored) : bool :=
  same_repo owner repo s && String.eqb (tag_name (st_release s)) tag.

(** Modelled from the spec: the remote service is not part of the
    repository.  "[getReleaseByTag] fails with NotFound if no non-draft
    release matches; draft releases are NOT returned by this lookup". *)
Definition srv_getReleaseByTag (p : TagParams) (srv : Server) : Result Release :=
  match List.find (fun s => has_tag (tp_owner p) (tp_repo p) (tp_tag p) s
                            && negb (st_draft s)) (releases srv) with
  | Some s => Ok (st_release s)
  | None => Err not_found
  end.

(** Modelled from the spec: "paginated, ordered by platform default,
    typically newest-first"; "fixed-size pages"; drafts are listed. *)
Definition srv_listReleases (p : ListParams) (srv : Server)
    : Result (list Release * bool) :=
  let all := List.filter (same_repo (lp_owner p) (lp_repo p)) (releases srv) in
  let size := Z.to_nat (lp_per_page p) in
  let start := (pred (lp_page p) * size)%nat in
  Ok (map st_release (take size (drop start all)),
      bool_decide (start + size < length all)%nat).

(** Modelled from the spec: "[createRelease] fails with Conflict when a
    release for that tag already exists (race)". *)
Definition srv_createRelease (p : CreateParams) (srv : Server)
    : Result Release * Server :=
  if existsb (has_tag (cp_owner p) (cp_repo p) (cp_tag_name p)) (releases srv)
  then (Err conflict, srv)
  else
    let r := {| id := next_id srv;
                upload_url := "uploads/" +:+ cp_tag_name p;
                html_url := "releases/tag/" +:+ cp_tag_name p;
                tag_name := cp_tag_name p;
                body := default "" (cp_body p);
                target_commitish := "master" |} in
    (Ok r,
     {| next_id := next_id srv + 1;
        releases :=
          {| st_owner := cp_owner p; st_repo := cp_repo p;
             st_release := r;
             st_name := cp_name p;
             st_draft := default false (cp_draft p);
             st_prerelease := default false (cp_prerelease p) |}
          :: releases srv;
        uploads := uploads srv |}).

Definition targets (p : UpdateParams) (s : Stored) : bool :=
  same_repo (up_owner p) (up_repo p) s
  && Z.eqb (id (st_release s)) (up_release_id p).

(** Modelled from the spec: "[updateRelease]: partial-field update;
    unspecified fields are left unchanged server-side". *)
Definition apply_update (p : UpdateParams) (s : Stored) : Stored :=
  {| st_owner := st_owner s;
     st_repo := st_repo s;
     st_release :=
       {| id := id (st_release s);
          upload_url := upload_url (st_release s);
          html_url := html_url (st_release s);
          tag_name := default (tag_name (st_release s)) (up_tag_name p);
          body := default (body (st_release s)) (up_body p);
          target_commitish :=
            default (target_commitish (st_release s)) (up_target_commitish p) |};
     st_name := default (st_name s) (up_name p);
     st_draft := default (st_draft s) (up_draft p);
     st_prerelease := default (st_prerelease s) (up_prerelease p) |}.

Definition srv_updateRelease (p : UpdateParams) (srv : Server)
    : Result Release * Server :=
  match List.find (targets p) (releases srv) with
  | Some s =>
      (Ok (st_release (apply_update p s)),
       {| next_id := next_id srv;
          releases :=
            map (fun s => if targets p s then apply_update p s else s)
              (releases srv);
          uploads := uploads srv |})
  | None => (Err not_found, srv)
  end.

(** Modelled from the spec: "issues an upload bound to the release's
    upload target using the basename as the asset's display name"; the
    service records the target and the name. *)
Definition srv_uploadReleaseAsset (url : string) (a : ReleaseAsset)
    (srv : Server) : Result unit * Server :=
  (Ok tt,
   {| next_id := next_id srv;
      releases := releases srv;
      uploads := (url, asset_name a) :: uploads srv |}).

(** The service answering the client's requests; console output and the
    action's outputs do not reach it. *)
Definition service : Handler GitHubE Server :=
  fun X e =>
    match e in GitHubE X return Server -> X * Server with
    | GetReleaseByTagReq p => fun srv => (srv_getReleaseByTag p srv, srv)
    | ListReleasesReq p => fun srv => (srv_listReleases p srv, srv)
    | CreateReleaseReq p => srv_createRelease p
    | UpdateReleaseReq p => srv_updateRelease p
    | UploadReleaseAssetReq url a => srv_uploadReleaseAsset url a
    | ConsoleOut _ _ => fun srv => (tt, srv)
    | SetFailed _ => fun srv => (tt, srv)
    | SetOutput _ _ => fun srv => (tt, srv)
    end.

Definition release_key (s : Stored) : string * option string * string :=
  (st_owner s, st_repo s, tag_name (st_release s)).

Definition stored_id (s : Stored) : Z := id (st_release s).

(** "At most one release per (owner, repo, tag)". *)
Definition unique_tags (srv : Server) : Prop :=
  List.NoDup (map release_key (releases srv)).

(** ** Concurrent runs *)

(** One request of one run is answered at a time. *)
Definition step_thread {E W A} (h : Handler E W) (p : Prog E A) (w : W)
    : Prog E A * W :=
  match p with
  | Ret a => (Ret a, w)
  | Vis e k => let '(x, w') := h _ e w in (k x, w')
  end.

(** [schedule h sched pool w]: the runs of [pool] advance in the order
    [sched] names them. *)
Fixpoint schedule {E W A} (h : Handler E W) (sched : list nat)
    (pool : list (Prog E A)) (w : W) : list (Prog E A) * W :=
  match sched with
  | [] => (pool, w)
  | i :: rest =>
      match pool !! i with
      | Some p =>
          let '(p', w') := step_thread h p w in
          schedule h rest (<[i := p']> pool) w'
      | None => schedule h rest pool w
      end
  end.

Definition finished {E A} (p : Prog E A) : option A :=
  match p with
  | Ret a => Some a
  | Vis _ _ => None
  end.


(** ** Scripted services and sample inputs *)

(** A service that answers from a script: each kind of request takes its
    next scripted answer, and fails with [otherwise] once its script is
    used up. *)
Record Script := mkScript {
  on_get : list (Result Release);
  on_list : list (Result (list Release * bool));
  on_create : list (Result Release);
  on_update : list (Result Release);
  otherwise : Error
}.

Definition next_answer {A} (answers : list (Result A)) (e : Error)
    : Result A * list (Result A) :=
  match answers with
  | [] => (Err e, [])
  | a :: rest => (a, rest)
  end.

Definition scripted : Handler GitHubE Script :=
  fun X e =>
    match e in GitHubE X return Script -> X * Script with
    | GetReleaseByTagReq _ => fun s =>
        let '(a, rest) := next_answer (on_get s) (otherwise s) in
        (a, mkScript rest (on_list s) (on_create s) (on_update s) (otherwise s))
    | ListReleasesReq _ => fun s =>
        let '(a, rest) := next_answer (on_list s) (otherwise s) in
        (a, mkScript (on_get s) rest (on_create s) (on_update s) (otherwise s))
    | CreateReleaseReq _ => fun s =>
        let '(a, rest) := next_answer (on_create s) (otherwise s) in
        (a, mkScript (on_get s) (on_list s) rest (on_update s) (otherwise s))
    | UpdateReleaseReq _ => fun s =>
        let '(a, rest) := next_answer (on_update s) (otherwise s) in
        (a, mkScript (on_get s) (on_list s) (on_create s) rest (otherwise s))
    | UploadReleaseAssetReq _ _ => fun s => (Ok tt, s)
    | ConsoleOut _ _ => fun s => (tt, s)
    | SetFailed _ => fun s => (tt, s)
    | SetOutput _ _ => fun s => (tt, s)
    end.

Definition server_error : Error := mkError (Some 500) "Internal Server Error".

Definition ends_with (suffix s : string) : bool :=
  String.prefix (String.rev suffix) (String.rev s).

Definition sample_util : Util :=
  {| releaseBody := input_body;
     isTag := String.prefix "refs/tags/";
     unmatchedPatterns := fun patterns => patterns;
     paths := fun _ => [];
     getType := fun path =>
       if ends_with ".zip" path then Some "application/zip" else None;
     basename := fun path => path;
     lstatSize := fun _ => 0;
     readFileSync := fun _ => [] |}.

Definition sample_config : Config :=
  {| github_token := "token";
     github_ref := "refs/tags/v1";
     github_repository := "owner/repo";
     input_name := None;
     input_tag_name := None;
     input_body := Some "notes";
     input_files := None;
     input_draft := Some false;
     input_prerelease := None;
     input_fail_on_unmatched_files := None;
     input_draft_until_assets_uploaded := None |}.

Definition sample_release : Release :=
  {| id := 7;
     upload_url := "uploads/v1";
     html_url := "releases/tag/v1";
     tag_name := "v1";
     body := "old";
     target_commitish := "main" |}.

Definition empty_server : Server := mkServer 1 [] [].

(** The world after one message on the console. *)
Definition logged {E} `{Console E} {W} (h : Handler E W) (s : Stream)
    (m : ConsoleMsg) (w : W) : W :=
  (h unit (console s m) w).2.

(** The requests [release] builds from a configuration. *)
Definition find_request (config : Config) : FindParams :=
  {| fp_owner := (destructure_repository (github_repository config)).1;
     fp_repo := (destructure_repository (github_repository config)).2;
     fp_tag := resolve_tag config;
     fp_draft := truthy_flag (input_draft config) |}.

Definition create_request (u : Util) (config : Config) : CreateParams :=
  {| cp_owner := (destructure_repository (github_repository config)).1;
     cp_repo := (destructure_repository (github_repository config)).2;
     cp_tag_name := resolve_tag config;
     cp_name := or_string (input_name config) (resolve_tag config);
     cp_body := releaseBody u config;
     cp_draft := input_draft config;
     cp_prerelease := input_prerelease config |}.

(** The outer [catch] block of [release], with [n] retries left. *)
Definition release_catch {E} `{Console E} (u : Util) (r : Releaser E)
    (n : nat) (config : Config) (error : Error) : M E Release :=
  if status_is 404 error then
    perform (console StdLog (CreatingRelease (resolve_tag config))) ;;
    try_catch
      (release <- createRelease r (create_request u config) ;;
       ret release)
      (fun error =>
         perform (console StdLog (ReleaseFailedRetrying (status error))) ;;
         release u r n config)
  else
    perform (console StdLog (UnexpectedError (github_ref config) error)) ;;
    throw error.

(** ** A recording [Releaser] *)

(** The calls a caller makes on the [Releaser] interface, as a test double
    sees them: each method is one request, answered by the handler. *)
Inductive ReleaserE : Type -> Type :=
| GetReleaseByTagCall (p : TagParams) : ReleaserE (Result Release)
| FindReleaseCall (p : FindParams) : ReleaserE (Result Release)
| CreateReleaseCall (p : CreateParams) : ReleaserE (Result Release)
| UpdateReleaseCall (p : UpdateParams) : ReleaserE (Result Release)
| AllReleasesNext (owner : string) (repo : option string) (n : nat)
    : ReleaserE (Result (option (list Release)))
| ReleaserConsole (s : Stream) (m : ConsoleMsg) : ReleaserE unit.

#[export] Instance ReleaserE_console : Console ReleaserE := ReleaserConsole.

Definition recording : Releaser ReleaserE :=
  {| getReleaseByTag := fun p => await (GetReleaseByTagCall p);
     findRelease := fun p => await (FindReleaseCall p);
     createRelease := fun p => await (CreateReleaseCall p);
     updateRelease := fun p => await (UpdateReleaseCall p);
     allReleases := fun owner repo =>
       {| it_state := nat;
          it_start := 0%nat;
          it_next := fun n =>
            page <- await (AllReleasesNext owner repo n) ;;
            ret (option_map (fun data => (data, S n)) page) |} |}.

(** A test double answering from per-method scripts. *)
Record Double := mkDouble {
  find_answers : list (Result Release);
  create_answers : list (Result Release);
  update_answers : list (Result Release);
  unscripted : Error
}.

Definition double : Handler ReleaserE Double :=
  fun X e =>
    match e in ReleaserE X return Double -> X * Double with
    | GetReleaseByTagCall _ => fun d => (Err (unscripted d), d)
    | FindReleaseCall _ => fun d =>
        let '(a, rest) := next_answer (find_answers d) (unscripted d) in
        (a, mkDouble rest (create_answers d) (update_answers d) (unscripted d))
    | CreateReleaseCall _ => fun d =>
        let '(a, rest) := next_answer (create_answers d) (unscripted d) in
        (a, mkDouble (find_answers d) rest (update_answers d) (unscripted d))
    | UpdateReleaseCall _ => fun d =>
        let '(a, rest) := next_answer (update_answers d) (unscripted d) in
        (a, mkDouble (find_answers d) (create_answers d) rest (unscripted d))
    | AllReleasesNext _ _ _ => fun d => (Ok None, d)
    | ReleaserConsole _ _ => fun d => (tt, d)
    end.

(** ** What every request of a program satisfies *)

Inductive Always {E A} (P : Obs E -> Prop) : Prog E A -> Prop :=
| AlwaysRet (a : A) : Always P (Ret a)
| AlwaysVis {X} (e : E X) (k : X -> Prog E A) :
    (forall x, P (Observed e x)) ->
    (forall x, Always P (k x)) ->
    Always P (Vis e k).

Definition updated_release : Release :=
  {| id := 7;
     upload_url := "uploads/v1";
     html_url := "releases/tag/v1";
     tag_name := "v1";
     body := "old" +:+ String "010"%char "notes";
     target_commitish := "main" |}.

(** No release at first, a creation that fails with status 500, then the
    release is there. *)
Definition retry_double : Double :=
  {| find_answers := [Err not_found; Ok sample_release];
     create_answers := [Err server_error];
     update_answers := [Ok updated_release];
     unscripted := server_error |}.

(** The lookup itself fails with status 500. *)
Definition failing_double : Double :=
  {| find_answers := [Err server_error];
     create_answers := [];
     update_answers := [];
     unscripted := server_error |}.

(** A stored release with another draft flag. *)
Definition with_draft (b : bool) (s : Stored) : Stored :=
  {| st_owner := st_owner s;
     st_repo := st_repo s;
     st_release := st_release s;
     st_name := st_name s;
     st_draft := b;
     st_prerelease := st_prerelease s |}.

(** The request [publishRelease] is expected to make. *)
Definition publish_request (config : Config) (releaseId : Z) : UpdateParams :=
  {| up_owner := (destructure_repository (github_repository config)).1;
     up_repo := (destructure_repository (github_repository config)).2;
     up_release_id := releaseId;
     up_tag_name := None;
     up_target_commitish := None;
     up_name := None;
     up_body := None;
     up_draft := Some false;
     up_prerelease := None |}.

(** The tag and the display name a call on the [Releaser] carries. *)
Definition uses_tag (tag : string) (o : Obs ReleaserE) : Prop :=
  match o with
  | Observed e _ =>
      match e with
      | FindReleaseCall p => fp_tag p = tag
      | CreateReleaseCall p => cp_tag_name p = tag
      | UpdateReleaseCall p => up_tag_name p = Some tag
      | _ => True
      end
  end.

Definition uses_name (name : string) (o : Obs ReleaserE) : Prop :=
  match o with
  | Observed e _ =>
      match e with
      | CreateReleaseCall p => cp_name p = name
      | UpdateReleaseCall p => up_name p = Some name
      | _ => True
      end
  end.

(** Empty overrides, as the action's inputs arrive when they are not
    set. *)
Definition blank_config : Config :=
  {| github_token := "token";
     github_ref := "refs/tags/v1";
     github_repository := "owner/repo";
     input_name := Some "";
     input_tag_name := Some "";
     input_body := Some "notes";
     input_files := None;
     input_draft := Some false;
     input_prerelease := None;
     input_fail_on_unmatched_files := None;
     input_draft_until_assets_uploaded := None |}.

(** The request for page [n] of a repository's releases, and the
    observations of a stretch of pages each announcing a next page. *)
Definition list_request (owner : string) (repo : option string) (n : nat)
    : GitHubE (Result (list Release * bool)) :=
  ListReleasesReq
    {| lp_owner := owner; lp_repo := repo; lp_per_page := 100; lp_page := n |}.

Fixpoint page_observations (owner : string) (repo : option string)
    (first : nat) (pages : list (list Release)) : list (Obs GitHubE) :=
  match pages with
  | [] => []
  | data :: rest =>
      Observed (list_request owner repo first) (Ok (data, true))
      :: page_observations owner repo (S first) rest
  end.

Definition tag_params (params : FindParams) : TagParams :=
  {| tp_owner := fp_owner params; tp_repo := fp_repo params;
     tp_tag := fp_tag params |}.

Definition outcome_of {A} (answer : Result A) : Outcome A :=
  match answer with
  | Ok a => Returned a
  | Err e => Threw e
  end.

Definition other_release : Release :=
  {| id := 3;
     upload_url := "uploads/v0";
     html_url := "releases/tag/v0";
     tag_name := "v0";
     body := "first";
     target_commitish := "main" |}.

Definition draft_lookup : FindParams :=
  {| fp_owner := "owner"; fp_repo := Some "repo"; fp_tag := "v1";
     fp_draft := true |}.

Definition plain_lookup : FindParams :=
  {| fp_owner := "owner"; fp_repo := Some "repo"; fp_tag := "v1";
     fp_draft := false |}.

(** The warnings [run] prints for unmatched patterns, and the world after
    them. *)
Definition warnings (patterns : list string) : list (Obs GitHubE) :=
  map (fun pattern =>
         Observed (ConsoleOut StdWarn (PatternUnmatched pattern)) tt)
    patterns.

Definition warned {W} (h : Handler GitHubE W) (patterns : list string)
    (w : W) : W :=
  fold_left (fun w pattern => logged h StdWarn (PatternUnmatched pattern) w)
    patterns w.

(** The first test of [run]: a tag name is given or the ref is a tag. *)
Definition has_a_tag (u : Util) (parsed : Config) : bool :=
  truthy_string (input_tag_name parsed) || isTag u (github_ref parsed).

(** A request that publishes: an update that sets [draft] to [false]. *)
Definition is_publish {X} (e : GitHubE X) : bool :=
  match e with
  | UpdateReleaseReq p => bool_decide (up_draft p = Some false)
  | _ => false
  end.

Definition obs_is_publish (o : Obs GitHubE) : bool :=
  match o with
  | Observed e _ => is_publish e
  end.

Definition strict_config : Config :=
  {| github_token := "token";
     github_ref := "refs/tags/v1";
     github_repository := "owner/repo";
     input_name := None;
     input_tag_name := None;
     input_body := Some "notes";
     input_files := Some ["dist/*.bin"];
     input_draft := Some false;
     input_prerelease := None;
     input_fail_on_unmatched_files := Some true;
     input_draft_until_assets_uploaded := None |}.

Definition lenient_config : Config :=
  {| github_token := "token";
     github_ref := "refs/tags/v1";
     github_repository := "owner/repo";
     input_name := None;
     input_tag_name := None;
     input_body := Some "notes";
     input_files := Some ["dist/*.bin"];
     input_draft := Some false;
     input_prerelease := None;
     input_fail_on_unmatched_files := None;
     input_draft_until_assets_uploaded := None |}.

(** A run that asks for the release to stay a draft until both files are
    uploaded, and to be published then. *)
Definition upload_util : Util :=
  {| releaseBody := input_body;
     isTag := String.prefix "refs/tags/";
     unmatchedPatterns := fun _ => [];
     paths := fun patterns => patterns;
     getType := fun path =>
       if ends_with ".zip" path then Some "application/zip" else None;
     basename := fun path => path;
     lstatSize := fun _ => 4;
     readFileSync := fun _ => [] |}.

Definition draft_until_uploaded_config : Config :=
  {| github_token := "token";
     github_ref := "refs/tags/v1";
     github_repository := "owner/repo";
     input_name := None;
     input_tag_name := None;
     input_body := Some "notes";
     input_files := Some ["app.zip"; "app.bin"];
     input_draft := Some false;
     input_prerelease := None;
     input_fail_on_unmatched_files := None;
     input_draft_until_assets_uploaded := Some true |}.

Definition created_release : Release :=
  {| id := 1;
     upload_url := "uploads/v1";
     html_url := "releases/tag/v1";
     tag_name := "v1";
     body := "notes";
     target_commitish := "master" |}.

(** ** One iteration of [release], as the specification tells it *)

Definition update_request (u : Util) (config : Config) (existing : Release)
    : UpdateParams :=
  {| up_owner := (destructure_repository (github_repository config)).1;
     up_repo := (destructure_repository (github_repository config)).2;
     up_release_id := id existing;
     up_tag_name := Some (resolve_tag config);
     up_target_commitish := Some (target_commitish existing);
     up_name := Some (or_string (input_name config) (resolve_tag config));
     up_body :=
       Some (body existing +:+ String "010"%char
               (interpolate (releaseBody u config)));
     up_draft := input_draft config;
     up_prerelease := input_prerelease config |}.

Section Attempt.
Context {E : Type -> Type} `{Console E} {W : Type}.
Variables (h : Handler E W) (u : Util) (r : Releaser E) (config : Config).

(** After an error of the lookup or of the update: status 404 leads to
    the creation, whose failure asks for another iteration ([None]); any
    other status ends the run with the error. *)
Definition attempt_after_error (e : Error) (w : W)
    : option (Outcome Release) * W :=
  if status_is 404 e then
    match exec h (createRelease r (create_request u config))
            (logged h StdLog (CreatingRelease (resolve_tag config)) w) with
    | (Returned created, w2) => (Some (Returned created), w2)
    | (Threw e', w2) =>
        (None, logged h StdLog (ReleaseFailedRetrying (status e')) w2)
    | (Exhausted, w2) => (Some Exhausted, w2)
    end
  else
    (Some (Threw e), logged h StdLog (UnexpectedError (github_ref config) e) w).

(** One pass through steps 1 to 3 of the workflow: [Some o] when the
    pass ends the run with [o], [None] when it asks for a retry. *)
Definition attempt (w : W) : option (Outcome Release) * W :=
  match exec h (findRelease r (find_request config)) w with
  | (Returned existing, w1) =>
      match exec h (updateRelease r (update_request u config existing)) w1 with
      | (Returned updated, w2) => (Some (Returned updated), w2)
      | (Threw e, w2) => attempt_after_error e w2
      | (Exhausted, w2) => (Some Exhausted, w2)
      end
  | (Threw e, w1) => attempt_after_error e w1
  | (Exhausted, w1) => (Some Exhausted, w1)
  end.

(** [n] passes in a row that all ask for a retry, and the world after
    them. *)
Fixpoint retries (n : nat) (w : W) : option W :=
  match n with
  | O => Some w
  | S n' =>
      match attempt w with
      | (None, w') => retries n' w'
      | (Some _, _) => None
      end
  end.

End Attempt.

(** A double that has no release and refuses [n] creations with a
    conflict before it accepts one. *)
Definition stubborn (n : nat) : Double :=
  {| find_answers := [];
     create_answers := replicate n (Err conflict) ++ [Ok created_release];
     update_answers := [];
     unscripted := not_found |}.

(** A releaser that never has the release and never lets it be
    created. *)
Definition hopeless : Handler ReleaserE unit :=
  fun X e =>
    match e in ReleaserE X return unit -> X * unit with
    | GetReleaseByTagCall _ => fun w => (Err not_found, w)
    | FindReleaseCall _ => fun w => (Err not_found, w)
    | CreateReleaseCall _ => fun w => (Err conflict, w)
    | UpdateReleaseCall _ => fun w => (Err not_found, w)
    | AllReleasesNext _ _ _ => fun w => (Ok None, w)
    | ReleaserConsole _ _ => fun w => (tt, w)
    end.

(** ** Runs that share the service *)

(** Identifiers are unique and below [next_id], and no two releases share
    owner, repository and tag. *)
Definition well_formed (srv : Server) : Prop :=
  List.NoDup (map stored_id (releases srv))
  /\ unique_tags srv
  /\ Forall (fun s => stored_id s < next_id srv) (releases srv).

(** Every release of [srv] is still in [srv'], under the same identifier,
    repository and tag. *)
Definition keeps (srv srv' : Server) : Prop :=
  forall s, In s (releases srv) ->
    exists s', In s' (releases srv')
               /\ stored_id s' = stored_id s
               /\ release_key s' = release_key s.

Definition evolves (srv srv' : Server) : Prop :=
  well_formed srv' /\ keeps srv srv'.

(** [safe p Q srv]: a run that last saw the service as [srv] and goes on
    as [p], whatever other runs did to the service meanwhile, only makes
    requests that leave the service well formed and keep its releases,
    and ends in a result [a] and a service state that satisfy [Q]. *)
Fixpoint safe {A} (p : Prog GitHubE A) (Q : A -> Server -> Prop)
    (srv : Server) : Prop :=
  match p with
  | Ret a => Q a srv
  | Vis e k =>
      forall srv1, evolves srv srv1 ->
        evolves srv1 (service _ e srv1).2
        /\ safe (k (service _ e srv1).1) Q (service _ e srv1).2
  end.

Definition anything {A} (_ : A) (_ : Server) : Prop := True.

(** The release a lookup returned is on the service, under the tag that
    was asked for. *)
Definition found_on_service (owner : string) (repo : option string)
    (tag : string) (release : Release) (srv : Server) : Prop :=
  exists s, In s (releases srv)
            /\ stored_id s = id release
            /\ release_key s = (owner, repo, tag).

Definition when_returned {A} (Q : A -> Server -> Prop) (o : Outcome A)
    (srv : Server) : Prop :=
  match o with
  | Returned a => Q a srv
  | _ => True
  end.

(** The runs of [release] for the given configurations and fuels. *)
Definition release_pool (u : Util) (pages : nat) (runs : list (nat * Config))
    : list (M GitHubE Release) :=
  map (fun run => release u (GitHubReleaser.releaser pages) run.1 run.2) runs.

(** Two runs for the same tag.  Both look the release up before either
    creates it; the first creation succeeds, the second meets a conflict,
    and the second run starts over, finds the release and updates it. *)
Definition race : list nat :=
  [0; 0; 1; 1; 0; 0; 1; 1; 1; 1; 1; 1]%nat.

Definition racing_runs : list (nat * Config) :=
  [(5%nat, sample_config); (5%nat, sample_config)].

(** ** Further vocabulary for the properties *)

Fixpoint contains_char (c : ascii) (s : string) : bool :=
  match s with
  | EmptyString => false
  | String c' rest => Ascii.eqb c' c || contains_char c rest
  end.

(** A call on the [Releaser] that [release] is expected to make, for the
    given owner and repository. *)
Definition release_call (owner : string) (repo : option string)
    (o : Obs ReleaserE) : Prop :=
  match o with
  | Observed e _ =>
      match e with
      | FindReleaseCall p => fp_owner p = owner /\ fp_repo p = repo
      | CreateReleaseCall p => cp_owner p = owner /\ cp_repo p = repo
      | UpdateReleaseCall p => up_owner p = owner /\ up_repo p = repo
      | ReleaserConsole _ _ => True
      | GetReleaseByTagCall _ => False
      | AllReleasesNext _ _ _ => False
      end
  end.

(** How a run of [release] against the recording releaser may end. *)
Definition release_ending (config : Config) (tr : list (Obs ReleaserE))
    (o : Outcome Release) : Prop :=
  match o with
  | Returned release =>
      exists before,
        (exists p, tr = before
                        ++ [Observed (UpdateReleaseCall p) (Ok release)])
        \/ (exists p, tr = before
                           ++ [Observed (CreateReleaseCall p) (Ok release)])
  | Threw e =>
      status_is 404 e = false
      /\ exists before,
           (exists p, tr = before
                ++ [Observed (FindReleaseCall p) (Err e);
                    Observed (ReleaserConsole StdLog
                      (UnexpectedError (github_ref config) e)) tt])
           \/ (exists p, tr = before
                ++ [Observed (UpdateReleaseCall p) (Err e);
                    Observed (ReleaserConsole StdLog
                      (UnexpectedError (github_ref config) e)) tt])
  | Exhausted => True
  end.

(** A request [findRelease] is expected to make for [params]. *)
Definition lookup_request (params : FindParams) (o : Obs GitHubE) : Prop :=
  match o with
  | Observed e _ =>
      match e with
      | ListReleasesReq p =>
          lp_owner p = fp_owner params /\ lp_repo p = fp_repo params
          /\ lp_per_page p = 100
      | GetReleaseByTagReq p => p = tag_params params
      | ConsoleOut _ _ => True
      | _ => False
      end
  end.

(** Requests that cannot change the releases of the service. *)
Definition is_read {X} (e : GitHubE X) : bool :=
  match e with
  | CreateReleaseReq _ | UpdateReleaseReq _ | UploadReleaseAssetReq _ _ => false
  | _ => true
  end.

Definition obs_is_read (o : Obs GitHubE) : bool :=
  match o with
  | Observed e _ => is_read e
  end.

(** The draft value [run] asks the release to be created or updated
    with. *)
Definition initial_draft (parsed : Config) : option bool :=
  if truthy_flag (input_draft_until_assets_uploaded parsed)
  then Some true else input_draft parsed.

Definition asks_for_draft (draft : option bool) (o : Obs GitHubE) : Prop :=
  match o with
  | Observed e _ =>
      match e with
      | CreateReleaseReq p => cp_draft p = draft
      | UpdateReleaseReq p => up_draft p = draft
      | _ => True
      end
  end.

(** An update that comes from [release]: it names the tag.  The update of
    [publishRelease] does not. *)
Definition update_names_tag (o : Obs GitHubE) : Prop :=
  match o with
  | Observed e _ =>
      match e with
      | UpdateReleaseReq p => up_tag_name p <> None
      | _ => True
      end
  end.

(** An upload of the asset read from one of the paths [paths] gives for
    the configured patterns. *)
Definition uploads_listed_path (u : Util) (parsed : Config)
    (o : Obs GitHubE) : Prop :=
  match o with
  | Observed e _ =>
      match e with
      | UploadReleaseAssetReq _ a =>
          exists files path,
            input_files parsed = Some files
            /\ In path (paths u files)
            /\ a = asset u path
      | _ => True
      end
  end.

(** Requests other than the two signals of the action, [setFailed] and
    [setOutput]. *)
Definition quiet (o : Obs GitHubE) : Prop :=
  match o with
  | Observed e _ =>
      match e with
      | SetFailed _ | SetOutput _ _ => False
      | _ => True
      end
  end.

(** The last three actions of a run that went through. *)
Definition reports (rel : Release) : list (Obs GitHubE) :=
  [ Observed (ConsoleOut StdLog (ReleaseReady (html_url rel))) tt;
    Observed (SetOutput "url" (html_url rel)) tt;
    Observed (SetOutput "upload_url" (upload_url rel)) tt ].

(** How the [try] block of [run] may end, and how [run] may. *)
Definition body_ending (tr : list (Obs GitHubE)) (o : Outcome unit) : Prop :=
  exists before,
    Forall quiet before
    /\ match o with
       | Returned _ => exists rel, tr = before ++ reports rel
       | _ => tr = before
       end.

Definition run_ending (tr : list (Obs GitHubE)) (o : Outcome unit) : Prop :=
  exists before,
    Forall quiet before
    /\ match o with
       | Returned _ =>
           (exists rel, tr = before ++ reports rel)
           \/ (exists msg, tr = before ++ [Observed (SetFailed msg) tt])
       | Threw _ => False
       | Exhausted => tr = before
       end.

(** A run started on a branch, with no tag name given. *)
Definition branch_config : Config :=
  {| github_token := "token";
     github_ref := "refs/heads/main";
     github_repository := "owner/repo";
     input_name := None;
     input_tag_name := Some "";
     input_body := None;
     input_files := Some ["dist/*.bin"];
     input_draft := None;
     input_prerelease := None;
     input_fail_on_unmatched_files := Some true;
     input_draft_until_assets_uploaded := None |}.

(** The release of tag [v1] as the service keeps it, as a draft or
    published. *)
Definition stored_v1 (draft : bool) : Stored :=
  {| st_owner := "owner"; st_repo := Some "repo";
     st_release := created_release;
     st_name := "v1";
     st_draft := draft;
     st_prerelease := false |}.

Definition server_with_v1 (draft : bool) : Server :=
  {| next_id := 2; releases := [stored_v1 draft]; uploads := [] |}.

(** The uploads of a trace: the upload target and the asset of each
    upload request, in order. *)
Definition upload_of (o : Obs GitHubE) : option (string * ReleaseAsset) :=
  match o with
  | Observed e _ =>
      match e with
      | UploadReleaseAssetReq url a => Some (url, a)
      | _ => None
      end
  end.

Definition uploaded (tr : list (Obs GitHubE)) : list (string * ReleaseAsset) :=
  omap upload_of tr.

(** A configuration that names the tag and the release itself. *)
Definition named_config : Config :=
  {| github_token := "token";
     github_ref := "refs/heads/main";
     github_repository := "owner/repo";
     input_name := Some "First release";
     input_tag_name := Some "v2";
     input_body := Some "notes";
     input_files := None;
     input_draft := Some false;
     input_prerelease := None;
     input_fail_on_unmatched_files := None;
     input_draft_until_assets_uploaded := None |}.

(** Modelled from the spec: the MIME lookup "guesses MIME type from the
    file extension".  [getType] of the [mime] package is not part of the
    sources; it takes the extension from the file name, and a file name
    that is a dot followed by letters only, inside a directory, is a
    hidden file without extension, for which the lookup answers [null].
    This lookup knows zip archives and nothing else. *)
Definition hidden_file_util : Util :=
  {| releaseBody := input_body;
     isTag := String.prefix "refs/tags/";
     unmatchedPatterns := fun patterns => patterns;
     paths := fun _ => [];
     getType := fun path =>
       if ends_with "/.zip" path then None
       else if ends_with ".zip" path then Some "application/zip"
       else None;
     basename := fun path => path;
     lstatSize := fun _ => 0;
     readFileSync := fun _ => [] |}.

(** A tag name given as input and no release name, on a branch build. *)
Definition tagged_config : Config :=
  {| github_token := "token";
     github_ref := "refs/heads/main";
     github_repository := "owner/repo";
     input_name := None;
     input_tag_name := Some "v2";
     input_body := Some "notes";
     input_files := None;
     input_draft := Some false;
     input_prerelease := None;
     input_fail_on_unmatched_files := None;
     input_draft_until_assets_uploaded := None |}.

(** A release name given as input and no tag name, on a tag build. *)
Definition titled_config : Config :=
  {| github_token := "token";
     github_ref := "refs/tags/v1";
     github_repository := "owner/repo";
     input_name := Some "First release";
     input_tag_name := None;
     input_body := Some "notes";
     input_files := None;
     input_draft := Some false;
     input_prerelease := None;
     input_fail_on_unmatched_files := None;
     input_draft_until_assets_uploaded := None |}.

(** The lookup finds the release, and the update succeeds. *)
Definition update_double : Double :=
  {| find_answers := [Ok sample_release];
     create_answers := [];
     update_answers := [Ok updated_release];
     unscripted := server_error |}.


(** * Properties *)

(** ** Running programs *)

Lemma exec_pbind {E W A B} (h : Handler E W) (p : Prog E A)
    (f : A -> Prog E B) (w : W) :
  exec h (pbind p f) w = exec h (f (exec h p w).1) (exec h p w).2.
Proof.
  revert w. induction p as [a | X e k IH]; intros w; simpl; [done |].
  destruct (h X e w) as [x w']. apply IH.
Qed.

Lemma trace_pbind {E W A B} (h : Handler E W) (p : Prog E A)
    (f : A -> Prog E B) (w : W) :
  trace h (pbind p f) w
  = trace h p w ++ trace h (f (exec h p w).1) (exec h p w).2.
Proof.
  revert w. induction p as [a | X e k IH]; intros w; simpl; [done |].
  destruct (h X e w) as [x w']. simpl. f_equal. apply IH.
Qed.

Lemma exec_bind_returned {E W A B} (h : Handler E W) (m : M E A)
    (f : A -> M E B) (w w1 : W) (a : A) :
  exec h m w = (Returned a, w1) ->
  exec h (bind m f) w = exec h (f a) w1.
Proof. intros Hm. unfold bind. rewrite exec_pbind, Hm. done. Qed.

Lemma exec_bind_threw {E W A B} (h : Handler E W) (m : M E A)
    (f : A -> M E B) (w w1 : W) (e : Error) :
  exec h m w = (Threw e, w1) ->
  exec h (bind m f) w = (Threw e, w1).
Proof. intros Hm. unfold bind. rewrite exec_pbind, Hm. done. Qed.

Lemma exec_bind_exhausted {E W A B} (h : Handler E W) (m : M E A)
    (f : A -> M E B) (w w1 : W) :
  exec h m w = (Exhausted, w1) ->
  exec h (bind m f) w = (Exhausted, w1).
Proof. intros Hm. unfold bind. rewrite exec_pbind, Hm. done. Qed.

Lemma exec_try_returned {E W A} (h : Handler E W) (m : M E A)
    (c : Error -> M E A) (w w1 : W) (a : A) :
  exec h m w = (Returned a, w1) ->
  exec h (try_catch m c) w = (Returned a, w1).
Proof. intros Hm. unfold try_catch. rewrite exec_pbind, Hm. done. Qed.

Lemma exec_try_threw {E W A} (h : Handler E W) (m : M E A)
    (c : Error -> M E A) (w w1 : W) (e : Error) :
  exec h m w = (Threw e, w1) ->
  exec h (try_catch m c) w = exec h (c e) w1.
Proof. intros Hm. unfold try_catch. rewrite exec_pbind, Hm. done. Qed.

Lemma exec_try_exhausted {E W A} (h : Handler E W) (m : M E A)
    (c : Error -> M E A) (w w1 : W) :
  exec h m w = (Exhausted, w1) ->
  exec h (try_catch m c) w = (Exhausted, w1).
Proof. intros Hm. unfold try_catch. rewrite exec_pbind, Hm. done. Qed.

Lemma exec_perform_console {E} `{Console E} {W B} (h : Handler E W)
    (s : Stream) (m : ConsoleMsg) (f : unit -> M E B) (w : W) :
  exec h (bind (perform (console s m)) f) w = exec h (f tt) (logged h s m w).
Proof.
  unfold logged. simpl. destruct (h unit (console s m) w) as [[] w']. done.
Qed.

(** ** [release]: one iteration *)

Section OneIteration.
Context {E : Type -> Type} `{Console E} {W : Type}.
Variables (h : Handler E W) (u : Util) (r : Releaser E).

Lemma release_S (n : nat) (config : Config) :
  release u r (S n) config
  = try_catch
      (existingRelease <- findRelease r (find_request config) ;;
       release <- updateRelease r
         {| up_owner := fp_owner (find_request config);
            up_repo := fp_repo (find_request config);
            up_release_id := id existingRelease;
            up_tag_name := Some (resolve_tag config);
            up_target_commitish := Some (target_commitish existingRelease);
            up_name :=
              Some (or_string (input_name config) (resolve_tag config));
            up_body :=
              Some (body existingRelease +:+ String "010"%char
                      (interpolate (releaseBody u config)));
            up_draft := input_draft config;
            up_prerelease := input_prerelease config |} ;;
       ret release)
      (release_catch u r n config).
Proof.
  unfold release_catch, find_request, create_request. simpl.
  destruct (destructure_repository (github_repository config)); done.
Qed.

(** The [catch] of the creation: whatever the error, log and start
    over. *)
Lemma exec_create_path (n : nat) (config : Config) (error : Error) (w : W) :
  status_is 404 error = true ->
  exec h
    (release_catch u r n config error) w
  = let w1 := logged h StdLog (CreatingRelease (resolve_tag config)) w in
    match exec h (createRelease r (create_request u config)) w1 with
    | (Returned release, w2) => (Returned release, w2)
    | (Threw e, w2) =>
        exec h (release u r n config)
          (logged h StdLog (ReleaseFailedRetrying (status e)) w2)
    | (Exhausted, w2) => (Exhausted, w2)
    end.
Proof.
  unfold release_catch. intros ->. rewrite exec_perform_console. cbv zeta.
  destruct (exec h (createRelease r (create_request u config)) _)
    as [[release | e |] w2] eqn:Hcreate.
  - erewrite exec_try_returned; [done |].
    erewrite exec_bind_returned by exact Hcreate. done.
  - erewrite exec_try_threw by (erewrite exec_bind_threw by exact Hcreate; done).
    rewrite exec_perform_console. done.
  - erewrite exec_try_exhausted; [done |].
    erewrite exec_bind_exhausted by exact Hcreate. done.
Qed.

Lemma exec_fatal_path (n : nat) (config : Config) (error : Error) (w : W) :
  status_is 404 error = false ->
  exec h
    (release_catch u r n config error) w
  = (Threw error,
     logged h StdLog (UnexpectedError (github_ref config) error) w).
Proof.
  unfold release_catch. intros ->. rewrite exec_perform_console. done.
Qed.

End OneIteration.

(** ** C1: which errors make [release] retry *)

(** C1 (as the code has it).  A failed [createRelease] makes [release]
    log the status and start over whatever the error is, so that no
    creation error is fatal; the errors that reach the caller unchanged
    are those of [findRelease] and [updateRelease] whose status is not
    404. *)
Theorem release_retries_on_every_create_error
    {E : Type -> Type} `{Console E} {W : Type}
    (h : Handler E W) (u : Util) (r : Releaser E) (n : nat)
    (config : Config) (w : W) :
  (forall e w1 e' w2,
      exec h (findRelease r (find_request config)) w = (Threw e, w1) ->
      status_is 404 e = true ->
      exec h (createRelease r (create_request u config))
        (logged h StdLog (CreatingRelease (resolve_tag config)) w1)
      = (Threw e', w2) ->
      exec h (release u r (S n) config) w
      = exec h (release u r n config)
          (logged h StdLog (ReleaseFailedRetrying (status e')) w2))
  /\ (forall e w1,
      exec h (findRelease r (find_request config)) w = (Threw e, w1) ->
      status_is 404 e = false ->
      exec h (release u r (S n) config) w
      = (Threw e, logged h StdLog (UnexpectedError (github_ref config) e) w1))
  /\ (forall existing w1 request e w2,
      exec h (findRelease r (find_request config)) w = (Returned existing, w1) ->
      request =
        {| up_owner := fp_owner (find_request config);
           up_repo := fp_repo (find_request config);
           up_release_id := id existing;
           up_tag_name := Some (resolve_tag config);
           up_target_commitish := Some (target_commitish existing);
           up_name := Some (or_string (input_name config) (resolve_tag config));
           up_body :=
             Some (body existing +:+ String "010"%char
                     (interpolate (releaseBody u config)));
           up_draft := input_draft config;
           up_prerelease := input_prerelease config |} ->
      exec h (updateRelease r request) w1 = (Threw e, w2) ->
      status_is 404 e = false ->
      exec h (release u r (S n) config) w
      = (Threw e, logged h StdLog (UnexpectedError (github_ref config) e) w2)).
Proof.
  repeat split.
  - intros e w1 e' w2 Hfind H404 Hcreate. rewrite release_S.
    erewrite exec_try_threw by (erewrite exec_bind_threw by exact Hfind; done).
    rewrite exec_create_path by done. cbv zeta. rewrite Hcreate. done.
  - intros e w1 Hfind H404. rewrite release_S.
    erewrite exec_try_threw by (erewrite exec_bind_threw by exact Hfind; done).
    apply exec_fatal_path. done.
  - intros existing w1 request e w2 Hfind -> Hupdate H404. rewrite release_S.
    erewrite exec_try_threw.
    + apply exec_fatal_path. done.
    + erewrite exec_bind_returned by exact Hfind.
      erewrite exec_bind_threw by exact Hupdate. done.
Qed.

Lemma release_retries_on_every_create_error_witness :
  exec double (release sample_util recording 2 sample_config) retry_double
  = exec double (release sample_util recording 1 sample_config)
      {| find_answers := [Ok sample_release];
         create_answers := [];
         update_answers := [Ok updated_release];
         unscripted := server_error |}
  /\ exec double (release sample_util recording 1 sample_config) failing_double
     = (Threw server_error,
        {| find_answers := []; create_answers := []; update_answers := [];
           unscripted := server_error |}).
Proof.
  split.
  - exact (proj1 (release_retries_on_every_create_error double sample_util
             recording 1 sample_config retry_double)
             not_found _ server_error _ eq_refl eq_refl eq_refl).
  - exact (proj1 (proj2 (release_retries_on_every_create_error double
             sample_util recording 0 sample_config failing_double))
             server_error _ eq_refl eq_refl).
Defined.

(** C1 (as stated) fails: a creation that fails with status 500, which is
    no conflict, does not end the run; [release] looks the release up
    again and returns the updated release. *)
Lemma release_survives_a_server_error_on_create :
  status server_error = Some 500
  /\ trace double (release sample_util recording 2 sample_config) retry_double
     = [ Observed (FindReleaseCall (find_request sample_config))
           (Err not_found);
         Observed (ReleaserConsole StdLog (CreatingRelease "v1")) tt;
         Observed (CreateReleaseCall (create_request sample_util sample_config))
           (Err server_error);
         Observed (ReleaserConsole StdLog (ReleaseFailedRetrying (Some 500))) tt;
         Observed (FindReleaseCall (find_request sample_config))
           (Ok sample_release);
         Observed (UpdateReleaseCall
           {| up_owner := "owner"; up_repo := Some "repo";
              up_release_id := 7;
              up_tag_name := Some "v1";
              up_target_commitish := Some "main";
              up_name := Some "v1";
              up_body := Some ("old" +:+ String "010"%char "notes");
              up_draft := Some false;
              up_prerelease := None |})
           (Ok updated_release) ]
  /\ (exec double (release sample_util recording 2 sample_config)
        retry_double).1
     = Returned updated_release.
Proof. repeat split. Qed.

(** ** C2: an existing release is updated, its body appended to *)

(** C2.  When [findRelease] answers an existing release, [release] calls
    [updateRelease] with the existing body, a newline and the body derived
    from the configuration, with the resolved tag, the existing release's
    [target_commitish], and the name, draft and prerelease values of the
    configuration; when that update succeeds, its result is what [release]
    returns. *)
Theorem release_appends_to_the_existing_body
    {E : Type -> Type} `{Console E} {W : Type}
    (h : Handler E W) (u : Util) (r : Releaser E) (n : nat)
    (config : Config) (w w1 : W) (existing : Release) :
  exec h (findRelease r (find_request config)) w = (Returned existing, w1) ->
  let request :=
    {| up_owner := (destructure_repository (github_repository config)).1;
       up_repo := (destructure_repository (github_repository config)).2;
       up_release_id := id existing;
       up_tag_name := Some (resolve_tag config);
       up_target_commitish := Some (target_commitish existing);
       up_name := Some (or_string (input_name config) (resolve_tag config));
       up_body :=
         Some (body existing +:+ String "010"%char
                 (interpolate (releaseBody u config)));
       up_draft := input_draft config;
       up_prerelease := input_prerelease config |} in
  (exists rest,
      trace h (release u r (S n) config) w
      = trace h (findRelease r (find_request config)) w
        ++ trace h (updateRelease r request) w1 ++ rest)
  /\ forall updated w2,
      exec h (updateRelease r request) w1 = (Returned updated, w2) ->
      exec h (release u r (S n) config) w = (Returned updated, w2).
Proof.
  intros Hfind request. split.
  - rewrite release_S. unfold try_catch, bind.
    rewrite !trace_pbind, !exec_pbind, Hfind. cbn [fst snd].
    rewrite !trace_pbind. rewrite <- !app_assoc. eexists. reflexivity.
  - intros updated w2 Hupdate. rewrite release_S.
    apply exec_try_returned.
    erewrite exec_bind_returned by exact Hfind.
    erewrite exec_bind_returned by exact Hupdate. done.
Qed.

Lemma release_appends_to_the_existing_body_witness :
  exec double (release sample_util recording 1 sample_config)
    {| find_answers := [Ok sample_release];
       create_answers := [];
       update_answers := [Ok updated_release];
       unscripted := server_error |}
  = (Returned updated_release,
     {| find_answers := []; create_answers := []; update_answers := [];
        unscripted := server_error |}).
Proof.
  exact (proj2 (release_appends_to_the_existing_body double sample_util
           recording 0 sample_config
           (mkDouble [Ok sample_release] [] [Ok updated_release] server_error)
           (mkDouble [] [] [Ok updated_release] server_error)
           sample_release eq_refl)
           updated_release (mkDouble [] [] [] server_error) eq_refl).
Defined.

(** ** Requests of a program *)

Section AlwaysLemmas.
Context {E : Type -> Type} (P : Obs E -> Prop).

Lemma always_pbind {A B} (p : Prog E A) (f : A -> Prog E B) :
  Always P p -> (forall a, Always P (f a)) -> Always P (pbind p f).
Proof.
  intros Hp Hf. induction Hp as [a | X e k He Hk IH]; simpl; [apply Hf |].
  constructor; auto.
Qed.

Lemma always_bind {A B} (m : M E A) (f : A -> M E B) :
  Always P m -> (forall a, Always P (f a)) -> Always P (bind m f).
Proof.
  intros Hm Hf. apply always_pbind; [done |].
  intros [a | e |]; [apply Hf | constructor | constructor].
Qed.

Lemma always_try_catch {A} (m : M E A) (c : Error -> M E A) :
  Always P m -> (forall e, Always P (c e)) -> Always P (try_catch m c).
Proof.
  intros Hm Hc. apply always_pbind; [done |].
  intros [a | e |]; [constructor | apply Hc | constructor].
Qed.

Lemma always_perform {X} (e : E X) :
  (forall x, P (Observed e x)) -> Always P (perform e).
Proof. intros He. constructor; [done |]. intros x. constructor. Qed.

Lemma always_await {X} (e : E (Result X)) :
  (forall x, P (Observed e x)) -> Always P (await e).
Proof. intros He. constructor; [done |]. intros [x | err]; constructor. Qed.

Lemma always_bind_bind {A B C} (m : M E A) (f : A -> M E B)
    (g : B -> M E C) :
  Always P m ->
  (forall a, Always P (bind (f a) g)) ->
  Always P (bind (bind m f) g).
Proof.
  intros Hm Hf. unfold bind at 1 2.
  induction Hm as [[a | e |] | X e k He Hk IH]; simpl.
  - apply Hf.
  - constructor.
  - constructor.
  - constructor; auto.
Qed.

Lemma always_bind_ret {A B} (a : A) (f : A -> M E B) :
  Always P (f a) -> Always P (bind (ret a) f).
Proof. done. Qed.

Lemma always_ret {A} (a : A) : Always P (ret (E := E) a).
Proof. constructor. Qed.

Lemma always_throw {A} (e : Error) : Always P (throw (E := E) (A := A) e).
Proof. constructor. Qed.

Lemma always_for_each {A} (xs : list A) (f : A -> M E unit) :
  (forall x, Always P (f x)) -> Always P (for_each xs f).
Proof.
  intros Hf. induction xs as [| x xs IH]; simpl; [constructor |].
  apply always_bind; auto.
Qed.

Lemma always_trace {W A} (h : Handler E W) (p : Prog E A) (w : W) :
  Always P p -> Forall P (trace h p w).
Proof.
  intros Hp. revert w. induction Hp as [a | X e k He Hk IH]; intros w; simpl.
  - constructor.
  - destruct (h X e w) as [x w']. constructor; auto.
Qed.

Lemma always_run {A} (p : Prog E A) (tr : list (Obs E)) (a : A) :
  Always P p -> Run p tr a -> Forall P tr.
Proof.
  intros Hp. revert tr. induction Hp as [b | X e k He Hk IH]; intros tr.
  - intros [-> _]. constructor.
  - intros (x & tr' & -> & Hrun). constructor; eauto.
Qed.

End AlwaysLemmas.

Create HintDb always.
#[local] Hint Resolve always_ret always_throw : always.

(** ** Strings *)

Lemma append_cons (c : ascii) (s t : string) :
  String c s +:+ t = String c (s +:+ t).
Proof. reflexivity. Qed.

Lemma append_empty_l (s : string) : "" +:+ s = s.
Proof. reflexivity. Qed.

Lemma append_empty_r (s : string) : s +:+ "" = s.
Proof.
  induction s as [| c s IH]; [done |]. by rewrite append_cons, IH.
Qed.

Lemma prefix_append (p s : string) : String.prefix p (p +:+ s) = true.
Proof.
  induction p as [| c p IH]; [by destruct s |].
  rewrite append_cons. simpl. destruct (ascii_dec c c); [apply IH | done].
Qed.

Lemma drop_chars_append (p s : string) :
  drop_chars (String.length p) (p +:+ s) = s.
Proof.
  induction p as [| c p IH]; [done |]. rewrite append_cons. simpl. done.
Qed.

(** [replace_first] replaces the occurrence no other occurrence starts
    before. *)
Lemma replace_first_at (pat rep pre post : string) :
  (forall a b, pre = a +:+ b -> b <> "" ->
     String.prefix pat (b +:+ pat +:+ post) = false) ->
  replace_first pat rep (pre +:+ pat +:+ post) = pre +:+ rep +:+ post.
Proof.
  induction pre as [| c pre IH]; intros Hfirst.
  - rewrite !append_empty_l.
    destruct (pat +:+ post) as [| c rest] eqn:Hs.
    + destruct pat; [| done]. rewrite append_empty_l in Hs. subst post.
      simpl. by rewrite append_empty_r.
    + cbn [replace_first]. rewrite <- Hs, prefix_append, drop_chars_append. done.
  - rewrite !append_cons. cbn [replace_first].
    rewrite <- append_cons.
    rewrite (Hfirst "" (String c pre)) by done.
    rewrite IH; [done |].
    intros a b -> Hb. apply (Hfirst (String c a) b); done.
Qed.

Lemma replace_first_absent (pat rep s : string) :
  (forall a b, s = a +:+ b -> String.prefix pat b = false) ->
  replace_first pat rep s = s.
Proof.
  induction s as [| c s IH]; intros Habsent.
  - cbn [replace_first]. by rewrite (Habsent "" "").
  - cbn [replace_first]. rewrite (Habsent "" (String c s)) by done.
    rewrite IH; [done |]. intros a b ->. apply (Habsent (String c a) b). done.
Qed.

Lemma resolve_tag_without_override (config : Config) :
  truthy_string (input_tag_name config) = false ->
  resolve_tag config = replace_first "refs/tags/" "" (github_ref config).
Proof.
  unfold resolve_tag, truthy_string, or_string.
  destruct (input_tag_name config) as [s |]; [| done].
  destruct (String.eqb s ""); done.
Qed.

Lemma or_string_falsy (a : option string) (b : string) :
  truthy_string a = false -> or_string a b = b.
Proof.
  unfold truthy_string, or_string. destruct a as [s |]; [| done].
  destruct (String.eqb s ""); done.
Qed.

(** ** C8: the MIME type of an asset *)

(** C8 (as the code has it).  [mimeOrDefault] follows the MIME lookup:
    it answers the zip type for exactly the paths that [getType] resolves
    to the zip type, which need not be every path ending in [.zip], and
    it answers [application/octet-stream] for every path the lookup does
    not recognise, and only for paths the lookup answers with nothing,
    with an empty type or with that very type. *)
Theorem mimeOrDefault_follows_the_lookup (u : Util) (path : string) :
  (mimeOrDefault u path = "application/zip"
   <-> getType u path = Some "application/zip")
  /\ (getType u path = None ->
      mimeOrDefault u path = "application/octet-stream")
  /\ (mimeOrDefault u path = "application/octet-stream" ->
      getType u path = None
      \/ getType u path = Some ""
      \/ getType u path = Some "application/octet-stream").
Proof.
  unfold mimeOrDefault, or_string.
  destruct (getType u path) as [mime |]; [| repeat split; auto; done].
  destruct (String.eqb mime "") eqn:Hmime.
  - apply String.eqb_eq in Hmime. subst mime.
    repeat split; auto; done.
  - repeat split; try done.
    + by intros ->.
    + by intros [= ->].
    + intros ->. auto.
Qed.

Lemma mimeOrDefault_follows_the_lookup_witness :
  mimeOrDefault sample_util "dist/app.zip" = "application/zip"
  /\ mimeOrDefault sample_util "dist/app.bin" = "application/octet-stream"
  /\ getType hidden_file_util "dist/.zip" = None.
Proof.
  split; [| split].
  - exact (proj2 (proj1 (mimeOrDefault_follows_the_lookup sample_util
             "dist/app.zip")) eq_refl).
  - exact (proj1 (proj2 (mimeOrDefault_follows_the_lookup sample_util
             "dist/app.bin")) eq_refl).
  - destruct (proj2 (proj2 (mimeOrDefault_follows_the_lookup hidden_file_util
             "dist/.zip")) eq_refl) as [Hnone | [Hempty | Hsame]].
    + exact Hnone.
    + discriminate Hempty.
    + discriminate Hsame.
Defined.

(** C8 (as stated) fails: a path can end in [.zip] and still get the
    fallback type.  For the hidden file [dist/.zip] the lookup finds no
    extension and answers nothing, so [mimeOrDefault] answers
    [application/octet-stream], not the zip type. *)
Lemma mimeOrDefault_of_a_hidden_zip_file :
  ends_with ".zip" "dist/.zip" = true
  /\ getType hidden_file_util "dist/.zip" = None
  /\ mimeOrDefault hidden_file_util "dist/.zip" = "application/octet-stream"
  /\ mimeOrDefault hidden_file_util "dist/.zip" <> "application/zip"
  /\ mimeOrDefault hidden_file_util "dist/app.zip" = "application/zip".
Proof. repeat split. discriminate. Qed.

(** ** C9: empty overrides *)

Lemma release_uses_tag (u : Util) (fuel : nat) (config : Config) :
  Always (uses_tag (resolve_tag config)) (release u recording fuel config).
Proof.
  induction fuel as [| n IH]; [constructor |].
  rewrite release_S. apply always_try_catch.
  - apply always_bind; [by apply always_await |].
    intros existing. apply always_bind; [by apply always_await |].
    intros updated. constructor.
  - intros e. unfold release_catch. destruct (status_is 404 e).
    + apply always_bind; [by apply always_perform |]. intros _.
      apply always_try_catch.
      * apply always_bind; [by apply always_await |]. intros r. constructor.
      * intros e'. apply always_bind; [by apply always_perform | done].
    + apply always_bind; [by apply always_perform |]. intros _. constructor.
Qed.

Lemma release_uses_name (u : Util) (fuel : nat) (config : Config) :
  Always (uses_name (or_string (input_name config) (resolve_tag config)))
    (release u recording fuel config).
Proof.
  induction fuel as [| n IH]; [constructor |].
  rewrite release_S. apply always_try_catch.
  - apply always_bind; [by apply always_await |].
    intros existing. apply always_bind; [by apply always_await |].
    intros updated. constructor.
  - intros e. unfold release_catch. destruct (status_is 404 e).
    + apply always_bind; [by apply always_perform |]. intros _.
      apply always_try_catch.
      * apply always_bind; [by apply always_await |]. intros r. constructor.
      * intros e'. apply always_bind; [by apply always_perform | done].
    + apply always_bind; [by apply always_perform |]. intros _. constructor.
Qed.

(** The first calls of a pass of [release], seen by the recording
    releaser: the lookup, then the update of the release the lookup
    answered, or the creation when the lookup answered 404. *)
Lemma release_looks_up_first {W : Type} (h : Handler ReleaserE W) (u : Util)
    (n : nat) (config : Config) (w : W) :
  exists x rest,
    trace h (release u recording (S n) config) w
    = Observed (FindReleaseCall (find_request config)) x :: rest.
Proof.
  rewrite release_S. unfold try_catch, bind. simpl.
  destruct (h _ _ w) as [x w']. eauto.
Qed.

Lemma release_then_updates {W : Type} (h : Handler ReleaserE W) (u : Util)
    (n : nat) (config : Config) (w w1 : W) (existing : Release) :
  h _ (FindReleaseCall (find_request config)) w = (Ok existing, w1) ->
  exists x rest,
    trace h (release u recording (S n) config) w
    = Observed (FindReleaseCall (find_request config)) (Ok existing)
      :: Observed (UpdateReleaseCall (update_request u config existing)) x
      :: rest.
Proof.
  intros Hfind. rewrite release_S. unfold try_catch, bind.
  cbn [findRelease recording await pbind trace]. rewrite Hfind.
  cbn [updateRelease recording await pbind trace].
  fold (update_request u config existing).
  destruct (h _ (UpdateReleaseCall _) w1) as [x w2]. eauto.
Qed.

Lemma release_then_creates {W : Type} (h : Handler ReleaserE W) (u : Util)
    (n : nat) (config : Config) (w w1 : W) (e : Error) :
  h _ (FindReleaseCall (find_request config)) w = (Err e, w1) ->
  status_is 404 e = true ->
  exists x rest,
    trace h (release u recording (S n) config) w
    = Observed (FindReleaseCall (find_request config)) (Err e)
      :: Observed
           (ReleaserConsole StdLog (CreatingRelease (resolve_tag config))) tt
      :: Observed (CreateReleaseCall (create_request u config)) x
      :: rest.
Proof.
  intros Hfind H404. rewrite release_S. unfold try_catch, bind.
  cbn [findRelease recording await pbind trace]. rewrite Hfind.
  cbn [pbind]. unfold release_catch. rewrite H404.
  unfold try_catch, bind.
  cbn [createRelease recording await perform pbind trace console
         ReleaserE_console].
  destruct (h unit _ w1) as [[] w2].
  destruct (h _ (CreateReleaseCall _) w2) as [x w3]. eauto.
Qed.

(** C9.  With an empty (or absent) tag-name override, [release] looks up,
    updates and creates under the tag obtained from the ref by removing
    the first occurrence of [refs/tags/]; with an empty (or absent)
    release name, the name it sends, in the update that follows a
    successful lookup and in the creation that follows a 404, is the
    resolved tag. *)
Theorem release_defaults_for_empty_overrides
    {W : Type} (h : Handler ReleaserE W) (u : Util) (fuel : nat)
    (config : Config) (w : W) :
  (truthy_string (input_tag_name config) = false ->
     let tag := replace_first "refs/tags/" "" (github_ref config) in
     resolve_tag config = tag
     /\ Forall (uses_tag tag) (trace h (release u recording fuel config) w)
     /\ (forall n, fuel = S n ->
           exists x rest,
             trace h (release u recording fuel config) w
             = Observed (FindReleaseCall
                 {| fp_owner := (destructure_repository (github_repository config)).1;
                    fp_repo := (destructure_repository (github_repository config)).2;
                    fp_tag := tag;
                    fp_draft := truthy_flag (input_draft config) |}) x :: rest)
     /\ (forall pre post,
           github_ref config = pre +:+ "refs/tags/" +:+ post ->
           (forall a b, pre = a +:+ b -> b <> "" ->
              String.prefix "refs/tags/" (b +:+ "refs/tags/" +:+ post) = false) ->
           tag = pre +:+ post)
     /\ ((forall a b, github_ref config = a +:+ b ->
            String.prefix "refs/tags/" b = false) ->
         tag = github_ref config)
     /\ (forall n existing w1, fuel = S n ->
           h _ (FindReleaseCall (find_request config)) w = (Ok existing, w1) ->
           exists p x rest,
             trace h (release u recording fuel config) w
             = Observed (FindReleaseCall (find_request config)) (Ok existing)
               :: Observed (UpdateReleaseCall p) x :: rest
             /\ up_tag_name p = Some tag)
     /\ (forall n e w1, fuel = S n ->
           h _ (FindReleaseCall (find_request config)) w = (Err e, w1) ->
           status_is 404 e = true ->
           exists p x rest,
             trace h (release u recording fuel config) w
             = Observed (FindReleaseCall (find_request config)) (Err e)
               :: Observed
                    (ReleaserConsole StdLog (CreatingRelease tag)) tt
               :: Observed (CreateReleaseCall p) x :: rest
             /\ cp_tag_name p = tag))
  /\ (truthy_string (input_name config) = false ->
      Forall (uses_name (resolve_tag config))
        (trace h (release u recording fuel config) w)
      /\ (forall n existing w1, fuel = S n ->
            h _ (FindReleaseCall (find_request config)) w = (Ok existing, w1) ->
            exists p x rest,
              trace h (release u recording fuel config) w
              = Observed (FindReleaseCall (find_request config)) (Ok existing)
                :: Observed (UpdateReleaseCall p) x :: rest
              /\ up_name p = Some (resolve_tag config)
              /\ up_tag_name p = Some (resolve_tag config))
      /\ (forall n e w1, fuel = S n ->
            h _ (FindReleaseCall (find_request config)) w = (Err e, w1) ->
            status_is 404 e = true ->
            exists p x rest,
              trace h (release u recording fuel config) w
              = Observed (FindReleaseCall (find_request config)) (Err e)
                :: Observed
                     (ReleaserConsole StdLog
                        (CreatingRelease (resolve_tag config))) tt
                :: Observed (CreateReleaseCall p) x :: rest
              /\ cp_name p = resolve_tag config
              /\ cp_tag_name p = resolve_tag config)).
Proof.
  split.
  - intros Hfalsy tag.
    pose proof (resolve_tag_without_override config Hfalsy) as Htag.
    fold tag in Htag. repeat split.
    + done.
    + rewrite <- Htag. apply always_trace, release_uses_tag.
    + intros n ->. rewrite release_S. unfold try_catch, bind, find_request.
      rewrite Htag. simpl.
      destruct (h _ _ w) as [x w']. eauto.
    + intros pre post Href Hfirst. subst tag. rewrite Href.
      apply (replace_first_at "refs/tags/" "" pre post Hfirst).
    + intros Habsent. apply replace_first_absent. done.
    + intros n existing w1 -> Hfind.
      destruct (release_then_updates h u n config w w1 existing Hfind)
        as (x & rest & Htrace).
      exists (update_request u config existing), x, rest.
      split; [done |]. simpl. by rewrite Htag.
    + intros n e w1 -> Hfind H404.
      destruct (release_then_creates h u n config w w1 e Hfind H404)
        as (x & rest & Htrace).
      exists (create_request u config), x, rest.
      rewrite <- Htag. split; done.
  - intros Hfalsy.
    pose proof (or_string_falsy (input_name config) (resolve_tag config) Hfalsy)
      as Hname.
    repeat split.
    + rewrite <- Hname at 1. apply always_trace, release_uses_name.
    + intros n existing w1 -> Hfind.
      destruct (release_then_updates h u n config w w1 existing Hfind)
        as (x & rest & Htrace).
      exists (update_request u config existing), x, rest.
      split; [done |]. simpl. by rewrite Hname.
    + intros n e w1 -> Hfind H404.
      destruct (release_then_creates h u n config w w1 e Hfind H404)
        as (x & rest & Htrace).
      exists (create_request u config), x, rest.
      split; [done |]. simpl. by rewrite Hname.
Qed.

Lemma release_defaults_for_empty_overrides_witness :
  resolve_tag blank_config = "v1"
  /\ Forall (uses_tag "v1")
       (trace double (release sample_util recording 2 blank_config) retry_double)
  /\ Forall (uses_name "v1")
       (trace double (release sample_util recording 2 blank_config) retry_double)
  /\ (exists p x rest,
        trace double (release sample_util recording 2 blank_config)
          retry_double
        = Observed (FindReleaseCall (find_request blank_config))
            (Err not_found)
          :: Observed (ReleaserConsole StdLog (CreatingRelease "v1")) tt
          :: Observed (CreateReleaseCall p) x :: rest
        /\ cp_name p = "v1"
        /\ cp_tag_name p = "v1")
  /\ (exists p x rest,
        trace double (release sample_util recording 1 blank_config)
          update_double
        = Observed (FindReleaseCall (find_request blank_config))
            (Ok sample_release)
          :: Observed (UpdateReleaseCall p) x :: rest
        /\ up_name p = Some "v1"
        /\ up_tag_name p = Some "v1").
Proof.
  pose proof (release_defaults_for_empty_overrides double sample_util 2
                blank_config retry_double) as [Htag Hname].
  pose proof (release_defaults_for_empty_overrides double sample_util 1
                blank_config update_double) as [_ Hname'].
  specialize (Htag eq_refl). specialize (Hname eq_refl).
  specialize (Hname' eq_refl).
  destruct Htag as (Hresolved & Hcalls & _).
  destruct Hname as (Hnames & _ & Hcreate).
  destruct Hname' as (_ & Hupdate & _).
  split; [assumption |]. split; [assumption |]. split; [assumption |].
  split.
  - exact (Hcreate 1%nat not_found _ eq_refl eq_refl eq_refl).
  - exact (Hupdate 0%nat sample_release _ eq_refl eq_refl).
Defined.

(** ** C10: publishing only clears the draft flag *)

Lemma map_find_none {A} (f : A -> bool) (g : A -> A) (l : list A) :
  List.find f l = None -> map (fun x => if f x then g x else x) l = l.
Proof.
  induction l as [| x l IH]; simpl; [done |].
  destruct (f x); [done |]. intros Hnone. by rewrite IH.
Qed.

Lemma apply_publish_request (config : Config) (releaseId : Z) (s : Stored) :
  apply_update (publish_request config releaseId) s = with_draft false s.
Proof. destruct s as [owner repo [] name draft prerelease]. reflexivity. Qed.

(** C10.  [publishRelease] makes one [updateRelease] call that names the
    owner, the repository and the release and sets [draft] to [false],
    every other field being left out; on the service, where fields left
    out keep their value, the release is changed in its draft flag only and
    no other release is touched. *)
Theorem publishRelease_only_clears_the_draft_flag
    (config : Config) (releaseId : Z) :
  (forall (E : Type -> Type) (r : Releaser E),
      publishRelease r config releaseId
      = (publishedRelease <- updateRelease r
           {| up_owner := (destructure_repository (github_repository config)).1;
              up_repo := (destructure_repository (github_repository config)).2;
              up_release_id := releaseId;
              up_tag_name := None;
              up_target_commitish := None;
              up_name := None;
              up_body := None;
              up_draft := Some false;
              up_prerelease := None |} ;;
         ret publishedRelease))
  /\ (forall (W : Type) (h : Handler ReleaserE W) (w : W),
      exists answer,
        trace h (publishRelease recording config releaseId) w
        = [Observed (UpdateReleaseCall (publish_request config releaseId))
             answer])
  /\ (forall (pages : nat) (srv : Server),
      let srv' :=
        (exec service
           (publishRelease (GitHubReleaser.releaser pages) config releaseId)
           srv).2 in
      next_id srv' = next_id srv
      /\ uploads srv' = uploads srv
      /\ releases srv'
         = map (fun s =>
                  if targets (publish_request config releaseId) s
                  then with_draft false s else s)
             (releases srv)).
Proof.
  assert (Hshape : forall (E : Type -> Type) (r : Releaser E),
    publishRelease r config releaseId
    = (publishedRelease <- updateRelease r (publish_request config releaseId) ;;
       ret publishedRelease)).
  { intros E r. unfold publishRelease, publish_request.
    destruct (destructure_repository (github_repository config)); done. }
  split; [exact Hshape | split].
  - intros W h w. rewrite Hshape. simpl.
    destruct (h _ _ w) as [[x | e] w']; simpl; eauto.
  - intros pages srv srv'. subst srv'. rewrite Hshape. simpl.
    unfold srv_updateRelease.
    destruct (List.find _ (releases srv)) as [s |] eqn:Hfind; simpl.
    + repeat split. apply map_ext. intros s'.
      by rewrite apply_publish_request.
    + repeat split. symmetry. apply map_find_none. done.
Qed.

(** ** C3: looking a release up *)

Lemma run_pbind {E A B} (p : Prog E A) (f : A -> Prog E B)
    (tr1 tr2 : list (Obs E)) (a : A) (b : B) :
  Run p tr1 a -> Run (f a) tr2 b -> Run (pbind p f) (tr1 ++ tr2) b.
Proof.
  revert tr1. induction p as [a' | X e k IH]; intros tr1; simpl.
  - intros [-> ->]. done.
  - intros (x & tr' & -> & Hrun) Hf. exists x, (tr' ++ tr2). split; [done |].
    by apply IH.
Qed.

(** What a handler makes a program do is one of its runs. *)
Lemma run_of_exec {E W A} (h : Handler E W) (p : Prog E A) (w : W) :
  Run p (trace h p w) (exec h p w).1.
Proof.
  revert w. induction p as [a | X e k IH]; intros w; simpl; [done |].
  destruct (h X e w) as [x w']. exists x, (trace h (k x) w'). split; [done |].
  apply IH.
Qed.

Lemma find_first_match (tag : string) (l1 l2 : list Release) (release : Release) :
  Forall (fun r => tag_name r <> tag) l1 ->
  tag_name release = tag ->
  List.find (tag_matches tag) (l1 ++ release :: l2) = Some release.
Proof.
  intros Hl1 Htag. induction Hl1 as [| r l1 Hr Hl1 IH]; simpl.
  - unfold tag_matches. rewrite Htag, String.eqb_refl. done.
  - unfold tag_matches at 1. apply String.eqb_neq in Hr. rewrite Hr. done.
Qed.

Lemma find_no_match (tag : string) (data : list Release) :
  Forall (fun r => tag_name r <> tag) data ->
  List.find (tag_matches tag) data = None.
Proof.
  induction 1 as [| r l Hr Hl IH]; simpl; [done |].
  unfold tag_matches at 1. apply String.eqb_neq in Hr. rewrite Hr. done.
Qed.

Section Scan.
Variables (owner : string) (repo : option string) (tag : string).

Lemma scan_pages_found (before : list (list Release)) (data : list Release)
    (more : bool) (release : Release) (first fuel : nat) :
  (length before < fuel)%nat ->
  Forall (fun page => List.find (tag_matches tag) page = None) before ->
  List.find (tag_matches tag) data = Some release ->
  Run (scan_pages fuel (GitHubReleaser.allReleases owner repo) (Some first) tag)
    (page_observations owner repo first before
     ++ [Observed (list_request owner repo (first + length before))
           (Ok (data, more));
         Observed (ConsoleOut StdLog (FoundDraft (tag_name release))) tt])
    (Returned (Some release)).
Proof.
  revert first fuel.
  induction before as [| page before IH]; intros first fuel Hfuel Hnone Hdata.
  - destruct fuel as [| fuel]; [simpl in Hfuel; lia |].
    simpl. rewrite Nat.add_0_r. eexists (Ok (data, more)), _.
    split; [reflexivity |]. simpl. rewrite Hdata. simpl.
    exists tt, []. done.
  - destruct fuel as [| fuel]; [simpl in Hfuel; lia |].
    inversion Hnone as [| ? ? Hpage Hrest]; subst.
    simpl. eexists (Ok (page, true)), _. split; [reflexivity |].
    simpl. rewrite Hpage.
    replace (first + S (length before))%nat
      with (S first + length before)%nat by lia.
    apply IH; [simpl in Hfuel; lia | done | done].
Qed.

Lemma scan_pages_exhausted_list (before : list (list Release))
    (data : list Release) (first fuel : nat) :
  (S (length before) < fuel)%nat ->
  Forall (fun page => List.find (tag_matches tag) page = None) before ->
  List.find (tag_matches tag) data = None ->
  Run (scan_pages fuel (GitHubReleaser.allReleases owner repo) (Some first) tag)
    (page_observations owner repo first before
     ++ [Observed (list_request owner repo (first + length before))
           (Ok (data, false))])
    (Returned None).
Proof.
  revert first fuel.
  induction before as [| page before IH]; intros first fuel Hfuel Hnone Hdata.
  - destruct fuel as [| fuel]; [simpl in Hfuel; lia |].
    simpl. rewrite Nat.add_0_r. eexists (Ok (data, false)), _.
    split; [reflexivity |]. simpl. rewrite Hdata.
    destruct fuel as [| fuel]; [lia |]. simpl. done.
  - destruct fuel as [| fuel]; [simpl in Hfuel; lia |].
    inversion Hnone as [| ? ? Hpage Hrest]; subst.
    simpl. eexists (Ok (page, true)), _. split; [reflexivity |].
    simpl. rewrite Hpage.
    replace (first + S (length before))%nat
      with (S first + length before)%nat by lia.
    apply IH; [simpl in Hfuel; lia | done | done].
Qed.

End Scan.

(** C3 (as the code has it).  With [draft] false, [findRelease] asks for
    no page and is the tag lookup [getReleaseByTag].  With [draft] true it
    reads the pages of the release list in order, scans each page from its
    start and returns the first release whose tag matches; when the last
    page has been read without a match, it falls through to
    [getReleaseByTag] and ends as that lookup ends (not found when the
    lookup says so). *)
Theorem findRelease_scans_drafts_then_looks_up_by_tag
    (pages : nat) (params : FindParams) :
  (fp_draft params = false ->
     GitHubReleaser.findRelease pages params
     = (perform (console StdLog (LookingForNonDraft (fp_tag params))) ;;
        GitHubReleaser.getReleaseByTag (tag_params params))
     /\ Always (fun o => obs_is_list_request o = false)
          (GitHubReleaser.findRelease pages params))
  /\ (fp_draft params = true ->
      forall before : list (list Release),
        Forall (Forall (fun r => tag_name r <> fp_tag params)) before ->
        (forall l1 release l2 more,
            (length before < pages)%nat ->
            Forall (fun r => tag_name r <> fp_tag params) l1 ->
            tag_name release = fp_tag params ->
            Run (GitHubReleaser.findRelease pages params)
              (Observed (ConsoleOut StdLog (LookingForDraft (fp_tag params))) tt
               :: page_observations (fp_owner params) (fp_repo params) 1 before
               ++ [Observed
                     (list_request (fp_owner params) (fp_repo params)
                        (S (length before)))
                     (Ok (l1 ++ release :: l2, more));
                   Observed
                     (ConsoleOut StdLog (FoundDraft (tag_name release))) tt])
              (Returned release))
        /\ (forall data answer,
            (S (length before) < pages)%nat ->
            Forall (fun r => tag_name r <> fp_tag params) data ->
            Run (GitHubReleaser.findRelease pages params)
              (Observed (ConsoleOut StdLog (LookingForDraft (fp_tag params))) tt
               :: page_observations (fp_owner params) (fp_repo params) 1 before
               ++ [Observed
                     (list_request (fp_owner params) (fp_repo params)
                        (S (length before)))
                     (Ok (data, false));
                   Observed
                     (ConsoleOut StdLog (LookingForNonDraft (fp_tag params))) tt;
                   Observed (GetReleaseByTagReq (tag_params params)) answer])
              (outcome_of answer))).
Proof.
  split.
  - intros Hdraft. unfold GitHubReleaser.findRelease. rewrite Hdraft. split.
    + reflexivity.
    + apply always_bind; [constructor |]. intros [release |]; [constructor |].
      apply always_bind; [by apply always_perform |]. intros _.
      by apply always_await.
  - intros Hdraft before Hbefore.
    assert (Hnone : Forall
              (fun page => List.find (tag_matches (fp_tag params)) page = None)
              before).
    { eapply Forall_impl; [exact Hbefore |]. intros page. apply find_no_match. }
    unfold GitHubReleaser.findRelease. rewrite Hdraft. split.
    + intros l1 release l2 more Hpages Hl1 Htag.
      pose proof (find_first_match _ l1 l2 release Hl1 Htag) as Hdata.
      pose proof (scan_pages_found (fp_owner params) (fp_repo params)
                    (fp_tag params) before _ more release 1 pages
                    Hpages Hnone Hdata) as Hscan.
      unfold bind at 1.
      match goal with |- Run _ ?tr _ => rewrite <- (app_nil_r tr) end.
      eapply run_pbind.
      * simpl. exists tt. eexists. split; [reflexivity |]. exact Hscan.
      * simpl. done.
    + intros data answer Hpages Hdata.
      pose proof (scan_pages_exhausted_list (fp_owner params) (fp_repo params)
                    (fp_tag params) before data 1 pages
                    Hpages Hnone (find_no_match _ _ Hdata)) as Hscan.
      unfold bind at 1.
      match goal with
      | |- Run _ (?o :: ?ps ++ [?a; ?b; ?c]) _ =>
          replace (o :: ps ++ [a; b; c]) with ((o :: ps ++ [a]) ++ [b; c])
            by (simpl; rewrite <- app_assoc; reflexivity)
      end.
      eapply run_pbind.
      * simpl. exists tt. eexists. split; [reflexivity |]. exact Hscan.
      * simpl. exists tt. eexists. split; [reflexivity |].
        exists answer, []. split; [reflexivity |]. destruct answer; simpl; done.
Qed.

Lemma findRelease_scans_drafts_then_looks_up_by_tag_witness :
  Run (GitHubReleaser.findRelease 3 draft_lookup)
    [ Observed (ConsoleOut StdLog (LookingForDraft "v1")) tt;
      Observed (list_request "owner" (Some "repo") 1)
        (Ok ([other_release], true));
      Observed (list_request "owner" (Some "repo") 2)
        (Ok ([other_release; sample_release; updated_release], false));
      Observed (ConsoleOut StdLog (FoundDraft "v1")) tt ]
    (Returned sample_release)
  /\ Run (GitHubReleaser.findRelease 3 draft_lookup)
       [ Observed (ConsoleOut StdLog (LookingForDraft "v1")) tt;
         Observed (list_request "owner" (Some "repo") 1)
           (Ok ([other_release], true));
         Observed (list_request "owner" (Some "repo") 2)
           (Ok ([other_release], false));
         Observed (ConsoleOut StdLog (LookingForNonDraft "v1")) tt;
         Observed (GetReleaseByTagReq (tag_params draft_lookup))
           (Err not_found) ]
       (Threw not_found)
  /\ Always (fun o => obs_is_list_request o = false)
       (GitHubReleaser.findRelease 3 plain_lookup).
Proof.
  pose proof (findRelease_scans_drafts_then_looks_up_by_tag 3 draft_lookup)
    as [_ Hdraft].
  pose proof (findRelease_scans_drafts_then_looks_up_by_tag 3 plain_lookup)
    as [Hplain _].
  assert (Hother : Forall (fun r => tag_name r <> fp_tag draft_lookup)
                     [other_release]).
  { repeat constructor. simpl. discriminate. }
  specialize (Hdraft eq_refl [[other_release]]
                ltac:(repeat constructor; simpl; discriminate)).
  destruct Hdraft as [Hfound Hmissing]. repeat split.
  - exact (Hfound [other_release] sample_release [updated_release] false
             ltac:(simpl; lia) Hother eq_refl).
  - exact (Hmissing [other_release] (Err not_found) ltac:(simpl; lia) Hother).
  - exact (proj2 (Hplain eq_refl)).
Defined.

(** C3 (as stated) fails: the list is read to its end without a match,
    and the lookup still does not end with "not found"; it ends as the tag
    lookup made after the scan ends, here with a release and with a
    server error. *)
Lemma findRelease_after_a_fruitless_scan :
  trace scripted (GitHubReleaser.findRelease 3 draft_lookup)
    {| on_get := [Ok sample_release];
       on_list := [Ok ([other_release], false)];
       on_create := []; on_update := []; otherwise := server_error |}
  = [ Observed (ConsoleOut StdLog (LookingForDraft "v1")) tt;
      Observed (list_request "owner" (Some "repo") 1)
        (Ok ([other_release], false));
      Observed (ConsoleOut StdLog (LookingForNonDraft "v1")) tt;
      Observed (GetReleaseByTagReq (tag_params draft_lookup))
        (Ok sample_release) ]
  /\ (exec scripted (GitHubReleaser.findRelease 3 draft_lookup)
        {| on_get := [Ok sample_release];
           on_list := [Ok ([other_release], false)];
           on_create := []; on_update := []; otherwise := server_error |}).1
     = Returned sample_release
  /\ (exec scripted (GitHubReleaser.findRelease 3 draft_lookup)
        {| on_get := [Err server_error];
           on_list := [Ok ([other_release], false)];
           on_create := []; on_update := []; otherwise := server_error |}).1
     = Threw server_error
  /\ status server_error <> status not_found.
Proof. repeat split. discriminate. Qed.

(** ** [run]: the checks before the first request *)

Lemma exec_bind {E W A B} (h : Handler E W) (m : M E A) (f : A -> M E B)
    (w : W) :
  exec h (bind m f) w
  = match exec h m w with
    | (Returned a, w1) => exec h (f a) w1
    | (Threw e, w1) => (Threw e, w1)
    | (Exhausted, w1) => (Exhausted, w1)
    end.
Proof.
  unfold bind. rewrite exec_pbind.
  destruct (exec h m w) as [[a | e |] w1]; done.
Qed.

Lemma trace_bind {E W A B} (h : Handler E W) (m : M E A) (f : A -> M E B)
    (w : W) :
  trace h (bind m f) w
  = trace h m w
    ++ match exec h m w with
       | (Returned a, w1) => trace h (f a) w1
       | _ => []
       end.
Proof.
  unfold bind. rewrite trace_pbind.
  destruct (exec h m w) as [[a | e |] w1]; done.
Qed.

Lemma exec_try_catch {E W A} (h : Handler E W) (m : M E A)
    (c : Error -> M E A) (w : W) :
  exec h (try_catch m c) w
  = match exec h m w with
    | (Returned a, w1) => (Returned a, w1)
    | (Threw e, w1) => exec h (c e) w1
    | (Exhausted, w1) => (Exhausted, w1)
    end.
Proof.
  unfold try_catch. rewrite exec_pbind.
  destruct (exec h m w) as [[a | e |] w1]; done.
Qed.

Lemma trace_try_catch {E W A} (h : Handler E W) (m : M E A)
    (c : Error -> M E A) (w : W) :
  trace h (try_catch m c) w
  = trace h m w
    ++ match exec h m w with
       | (Threw e, w1) => trace h (c e) w1
       | _ => []
       end.
Proof.
  unfold try_catch. rewrite trace_pbind.
  destruct (exec h m w) as [[a | e |] w1]; done.
Qed.

Lemma exec_ret {E W A} (h : Handler E W) (a : A) (w : W) :
  exec h (ret a) w = (Returned a, w).
Proof. reflexivity. Qed.

Lemma exec_throw {E W A} (h : Handler E W) (e : Error) (w : W) :
  exec h (throw (A := A) e) w = (Threw e, w).
Proof. reflexivity. Qed.

Lemma trace_ret {E W A} (h : Handler E W) (a : A) (w : W) :
  trace h (ret a) w = [].
Proof. reflexivity. Qed.

Lemma trace_throw {E W A} (h : Handler E W) (e : Error) (w : W) :
  trace h (throw (A := A) e) w = [].
Proof. reflexivity. Qed.

Lemma deref_singleton (parsed : Config) :
  deref {[ 0%nat := parsed ]} 0%nat = parsed.
Proof. unfold deref. apply lookup_total_singleton_eq. Qed.

Lemma run_checks (u : Util) (fuel pages : nat) (parsed : Config) :
  run u fuel pages parsed
  = try_catch
      ((if negb (truthy_string (input_tag_name parsed))
           && negb (isTag u (github_ref parsed))
        then throw requires_a_tag else ret tt) ;;
       match input_files parsed with
       | Some input_files =>
           let patterns := unmatchedPatterns u input_files in
           for_each patterns (fun pattern =>
             perform (console StdWarn (PatternUnmatched pattern))) ;;
           if bool_decide (0 < length patterns)%nat
              && truthy_flag (input_fail_on_unmatched_files parsed)
           then throw unmatched_files else ret tt
       | None => ret tt
       end ;;
       release_and_upload u fuel pages {[ 0%nat := parsed ]} 0%nat)
      report_failure.
Proof. unfold run. cbv zeta. rewrite !deref_singleton. reflexivity. Qed.

Section Warnings.
Context {W : Type} (h : Handler GitHubE W).

Lemma exec_warn_each (patterns : list string) (w : W) :
  exec h
    (for_each patterns (fun pattern =>
       perform (console StdWarn (PatternUnmatched pattern)))) w
  = (Returned tt, warned h patterns w).
Proof.
  revert w. induction patterns as [| pattern patterns IH]; intros w; [done |].
  cbn [for_each]. rewrite exec_perform_console. apply IH.
Qed.

Lemma trace_warn_each (patterns : list string) (w : W) :
  trace h
    (for_each patterns (fun pattern =>
       perform (console StdWarn (PatternUnmatched pattern)))) w
  = warnings patterns.
Proof.
  revert w. induction patterns as [| pattern patterns IH]; intros w; [done |].
  cbn [for_each]. rewrite trace_bind. simpl.
  unfold console, GitHubE_console.
  destruct (h unit (ConsoleOut StdWarn (PatternUnmatched pattern)) w)
    as [[] w1]. simpl. f_equal. apply IH.
Qed.

Lemma trace_report_failure (error : Error) (w : W) :
  trace h (report_failure error) w = [Observed (SetFailed (message error)) tt].
Proof.
  unfold report_failure. simpl. by destruct (h unit _ w) as [[] w1].
Qed.

Lemma exec_report_failure (error : Error) (w : W) :
  (exec h (report_failure error) w).1 = Returned tt.
Proof.
  unfold report_failure. simpl. by destruct (h unit _ w) as [[] w1].
Qed.

End Warnings.

Create Rewrite HintDb run.
#[local] Hint Rewrite @exec_bind @trace_bind @exec_try_catch @trace_try_catch
  @exec_ret @trace_ret @exec_throw @trace_throw
  @exec_warn_each @trace_warn_each @trace_report_failure app_nil_l : run.

Ltac run_steps :=
  repeat (progress (autorewrite with run; cbv beta iota)).

Lemma warnings_no_network (patterns : list string) :
  Forall (fun o => obs_is_network o = false) (warnings patterns).
Proof. unfold warnings. apply Forall_map, Forall_forall. done. Qed.

(** C7.  When some pattern of the file list matches no file: with the
    fail-on-unmatched-files flag set, [run] fails before any request goes
    to the network, having printed only warnings and the failure; with the
    flag unset (and a tag to release), [run] prints one warning per
    unmatched pattern and goes on with the release as it would have
    without them. *)
Theorem run_unmatched_patterns
    {W : Type} (h : Handler GitHubE W) (u : Util) (fuel pages : nat)
    (parsed : Config) (files : list string) (w : W) :
  input_files parsed = Some files ->
  unmatchedPatterns u files <> [] ->
  (truthy_flag (input_fail_on_unmatched_files parsed) = true ->
     Forall (fun o => obs_is_network o = false)
       (trace h (run u fuel pages parsed) w)
     /\ (exists before msg,
           trace h (run u fuel pages parsed) w
           = before ++ [Observed (SetFailed msg) tt])
     /\ (has_a_tag u parsed = true ->
         trace h (run u fuel pages parsed) w
         = warnings (unmatchedPatterns u files)
           ++ [Observed (SetFailed (message unmatched_files)) tt]))
  /\ (truthy_flag (input_fail_on_unmatched_files parsed) = false ->
      has_a_tag u parsed = true ->
      trace h (run u fuel pages parsed) w
      = warnings (unmatchedPatterns u files)
        ++ trace h
             (try_catch
                (release_and_upload u fuel pages {[ 0%nat := parsed ]} 0%nat)
                report_failure)
             (warned h (unmatchedPatterns u files) w)
      /\ exec h (run u fuel pages parsed) w
         = exec h
             (try_catch
                (release_and_upload u fuel pages {[ 0%nat := parsed ]} 0%nat)
                report_failure)
             (warned h (unmatchedPatterns u files) w)).
Proof.
  intros Hfiles Hunmatched.
  assert (Hlen : bool_decide (0 < length (unmatchedPatterns u files))%nat = true).
  { apply bool_decide_eq_true. destruct (unmatchedPatterns u files); [done |].
    simpl. lia. }
  rewrite run_checks, Hfiles. cbv zeta. rewrite Hlen.
  replace (negb (truthy_string (input_tag_name parsed))
           && negb (isTag u (github_ref parsed)))
    with (negb (has_a_tag u parsed))
    by (unfold has_a_tag; apply negb_orb).
  destruct (has_a_tag u parsed); cbn [negb andb].
  - split.
    + intros ->. run_steps. rewrite !app_nil_r. repeat split.
      * apply Forall_app. split; [apply warnings_no_network |].
        repeat constructor.
      * eexists _, _. reflexivity.
    + intros -> _. run_steps. rewrite !app_nil_r, <- app_assoc. done.
  - split; [| intros _ [=]]. intros _. run_steps. repeat split.
    + repeat constructor.
    + exists [], (message requires_a_tag). done.
    + intros [=].
Qed.

Lemma run_unmatched_patterns_witness :
  trace service (run sample_util 3 3 strict_config) empty_server
  = [ Observed (ConsoleOut StdWarn (PatternUnmatched "dist/*.bin")) tt;
      Observed (SetFailed "⚠️ There were unmatched files") tt ]
  /\ trace service (run sample_util 3 3 lenient_config) empty_server
     = Observed (ConsoleOut StdWarn (PatternUnmatched "dist/*.bin")) tt
       :: trace service
            (try_catch
               (release_and_upload sample_util 3 3
                  {[ 0%nat := lenient_config ]} 0%nat)
               report_failure)
            empty_server.
Proof.
  split.
  - pose proof (run_unmatched_patterns service sample_util 3 3 strict_config
                  ["dist/*.bin"] empty_server eq_refl
                  ltac:(simpl; discriminate)) as [Hstrict _].
    exact (proj2 (proj2 (Hstrict eq_refl)) eq_refl).
  - pose proof (run_unmatched_patterns service sample_util 3 3 lenient_config
                  ["dist/*.bin"] empty_server eq_refl
                  ltac:(simpl; discriminate)) as [_ Hlenient].
    exact (proj1 (Hlenient eq_refl eq_refl)).
Defined.

(** ** C4: draft until the assets are uploaded *)

Section Requests.
Variable P : Obs GitHubE -> Prop.
Hypothesis P_console : forall s m x, P (Observed (ConsoleOut s m) x).
Hypothesis P_list : forall p x, P (Observed (ListReleasesReq p) x).
Hypothesis P_get : forall p x, P (Observed (GetReleaseByTagReq p) x).

Lemma scan_pages_requests (owner : string) (repo : option string)
    (tag : string) (fuel : nat) (st : option nat) :
  Always P (scan_pages fuel (GitHubReleaser.allReleases owner repo) st tag).
Proof.
  revert st. induction fuel as [| fuel IH]; intros st; [constructor |].
  cbn [scan_pages]. apply always_bind.
  - destruct st as [page |]; [| constructor].
    cbn [it_next GitHubReleaser.allReleases GitHubReleaser.next_page].
    apply always_bind; [by apply always_await |].
    intros [data more]. constructor.
  - intros [[data st'] |]; [| constructor].
    destruct (List.find _ data) as [release |]; [| apply IH].
    apply always_bind; [by apply always_perform |]. intros _. constructor.
Qed.

Lemma findRelease_requests (pages : nat) (params : FindParams) :
  Always P (GitHubReleaser.findRelease pages params).
Proof.
  unfold GitHubReleaser.findRelease. apply always_bind.
  - destruct (fp_draft params); [| constructor].
    apply always_bind; [by apply always_perform |]. intros _.
    apply scan_pages_requests.
  - intros [release |]; [constructor |].
    apply always_bind; [by apply always_perform |]. intros _.
    by apply always_await.
Qed.

Hypothesis P_create : forall p x, P (Observed (CreateReleaseReq p) x).

(** Whatever holds of the update [release] makes holds of all its
    requests. *)
Lemma release_requests (u : Util) (pages fuel : nat) (config : Config) :
  (forall p x, up_draft p = input_draft config ->
     P (Observed (UpdateReleaseReq p) x)) ->
  Always P (release u (GitHubReleaser.releaser pages) fuel config).
Proof.
  intros P_update. induction fuel as [| n IH]; [constructor |].
  rewrite release_S. apply always_try_catch.
  - apply always_bind; [apply findRelease_requests |].
    intros existing. apply always_bind.
    + apply always_await. intros x. by apply P_update.
    + intros updated. constructor.
  - intros e. unfold release_catch. destruct (status_is 404 e).
    + apply always_bind; [by apply always_perform |]. intros _.
      apply always_try_catch.
      * apply always_bind; [by apply always_await |]. intros r. constructor.
      * intros e'. apply always_bind; [by apply always_perform | done].
    + apply always_bind; [by apply always_perform |]. intros _. constructor.
Qed.

End Requests.

Lemma deref_assign_input_draft (parsed : Config) (b : bool) :
  deref (assign_input_draft {[ 0%nat := parsed ]} 0%nat b) 0%nat
  = set_input_draft b parsed.
Proof.
  unfold assign_input_draft, deref.
  rewrite lookup_total_insert_eq, lookup_total_singleton_eq. done.
Qed.

(** With the flag on, no request of [run] sets [draft] to [false]: the
    assignment through [initialConfig] is seen through [config] too, and
    the test that guards [publishRelease] reads the draft flag it has just
    set. *)
Lemma run_never_publishes (u : Util) (fuel pages : nat) (parsed : Config) :
  truthy_flag (input_draft_until_assets_uploaded parsed) = true ->
  Always (fun o => obs_is_publish o = false) (run u fuel pages parsed).
Proof.
  intros Hflag. rewrite run_checks. apply always_try_catch.
  2: { intros e. by apply always_perform. }
  apply always_bind.
  { destruct (_ && _); constructor. }
  intros _. apply always_bind.
  { destruct (input_files parsed) as [files |]; [| constructor].
    cbv zeta. apply always_bind.
    - apply always_for_each. intros pattern. by apply always_perform.
    - intros _. destruct (_ && _); constructor. }
  intros _. unfold release_and_upload. cbv zeta.
  rewrite !deref_singleton, Hflag.
  apply always_bind_bind; [by apply always_perform |]. intros [].
  apply always_bind_ret.
  rewrite !deref_assign_input_draft. cbn [set_input_draft input_draft
    input_draft_until_assets_uploaded input_files truthy_flag negb andb].
  rewrite Hflag. cbn [andb].
  apply always_bind.
  { apply release_requests; try done. intros p x Hdraft. simpl.
    rewrite Hdraft. done. }
  intros rel. apply always_bind.
  { destruct (input_files parsed) as [files |]; [| constructor].
    cbv zeta. apply always_bind.
    - destruct (bool_decide _); [by apply always_perform | constructor].
    - intros _. apply always_for_each. intros path. unfold detached, upload.
      apply always_pbind; [| constructor].
      apply always_bind; [by apply always_perform |]. intros _.
      by apply always_await. }
  intros _. apply always_bind; [constructor |]. intros _.
  apply always_bind; [by apply always_perform |]. intros _.
  apply always_bind; [by apply always_perform |]. intros _.
  by apply always_perform.
Qed.

(** C4 (the code misses it).  A run with the draft-until-uploaded flag on
    and [draft] off: the release is created as a draft and both uploads
    are sent, but no update follows them; the run reports success and
    the release is still a draft on the service. *)
Theorem run_leaves_the_release_a_draft :
  trace service (run upload_util 3 3 draft_until_uploaded_config) empty_server
  = [ Observed (ConsoleOut StdLog MarkingDraft) tt;
      Observed (ConsoleOut StdLog (LookingForDraft "v1")) tt;
      Observed (list_request "owner" (Some "repo") 1) (Ok ([], false));
      Observed (ConsoleOut StdLog (LookingForNonDraft "v1")) tt;
      Observed
        (GetReleaseByTagReq
           {| tp_owner := "owner"; tp_repo := Some "repo"; tp_tag := "v1" |})
        (Err not_found);
      Observed (ConsoleOut StdLog (CreatingRelease "v1")) tt;
      Observed
        (CreateReleaseReq
           {| cp_owner := "owner"; cp_repo := Some "repo";
              cp_tag_name := "v1"; cp_name := "v1";
              cp_body := Some "notes";
              cp_draft := Some true;
              cp_prerelease := None |})
        (Ok created_release);
      Observed (ConsoleOut StdLog (Uploading "app.zip")) tt;
      Observed
        (UploadReleaseAssetReq "uploads/v1"
           (mkAsset "app.zip" "application/zip" 4 []))
        (Ok tt);
      Observed (ConsoleOut StdLog (Uploading "app.bin")) tt;
      Observed
        (UploadReleaseAssetReq "uploads/v1"
           (mkAsset "app.bin" "application/octet-stream" 4 []))
        (Ok tt);
      Observed (ConsoleOut StdLog (ReleaseReady "releases/tag/v1")) tt;
      Observed (SetOutput "url" "releases/tag/v1") tt;
      Observed (SetOutput "upload_url" "uploads/v1") tt ]
  /\ Forall (fun o => obs_is_publish o = false)
       (trace service (run upload_util 3 3 draft_until_uploaded_config)
          empty_server)
  /\ map (fun s => (tag_name (st_release s), st_draft s))
       (releases
          (exec service (run upload_util 3 3 draft_until_uploaded_config)
             empty_server).2)
     = [("v1", true)].
Proof.
  split; [reflexivity | split; [| reflexivity]].
  apply always_trace, run_never_publishes. reflexivity.
Qed.

(** ** C6: retries without a bound *)

Section Retry.
Context {E : Type -> Type} `{Console E} {W : Type}.
Variables (h : Handler E W) (u : Util) (r : Releaser E) (config : Config).

Lemma exec_release_S (n : nat) (w : W) :
  exec h (release u r (S n) config) w
  = match attempt h u r config w with
    | (Some o, w') => (o, w')
    | (None, w') => exec h (release u r n config) w'
    end.
Proof.
  assert (Hcatch : forall e w1,
    exec h (release_catch u r n config e) w1
    = match attempt_after_error h u r config e w1 with
      | (Some o, w') => (o, w')
      | (None, w') => exec h (release u r n config) w'
      end).
  { intros e w1. unfold attempt_after_error.
    destruct (status_is 404 e) eqn:H404.
    - rewrite exec_create_path by done. cbv zeta.
      destruct (exec h (createRelease r _) _) as [[created | e' |] w2]; done.
    - rewrite exec_fatal_path by done. done. }
  rewrite release_S, exec_try_catch, exec_bind. unfold attempt.
  destruct (exec h (findRelease r _) w) as [[existing | e |] w1]; [| apply Hcatch | done].
  rewrite exec_bind. fold (update_request u config existing).
  destruct (exec h (updateRelease r _) w1) as [[updated | e |] w2];
    [done | apply Hcatch | done].
Qed.

Lemma exec_release_retries (n k : nat) (w w' : W) :
  retries h u r config n w = Some w' ->
  exec h (release u r (n + k) config) w = exec h (release u r k config) w'.
Proof.
  revert w. induction n as [| n IH]; intros w; simpl retries.
  - intros [= ->]. done.
  - change (S n + k)%nat with (S (n + k)). rewrite exec_release_S.
    destruct (attempt h u r config w) as [[o |] w1]; [done |]. apply IH.
Qed.

Lemma release_never_ends (fuel : nat) (w : W) :
  (forall w, (attempt h u r config w).1 = None) ->
  (exec h (release u r fuel config) w).1 = Exhausted.
Proof.
  intros Hretry. revert w. induction fuel as [| n IH]; intros w; [done |].
  rewrite exec_release_S. specialize (Hretry w).
  destruct (attempt h u r config w) as [[o |] w1]; [done | apply IH].
Qed.

End Retry.

Section Termination.
Context {E : Type -> Type} `{Console E} {W : Type}.
Variables (h : Handler E W) (u : Util) (r : Releaser E) (config : Config).

Lemma release_ends_iff (fuel : nat) (w : W) :
  (exec h (release u r fuel config) w).1 <> Exhausted
  <-> exists n w' o,
        (n < fuel)%nat
        /\ retries h u r config n w = Some w'
        /\ (attempt h u r config w').1 = Some o
        /\ o <> Exhausted.
Proof.
  split.
  - revert w. induction fuel as [| fuel IH]; intros w; [done |].
    rewrite exec_release_S.
    destruct (attempt h u r config w) as [[o |] w1] eqn:Hattempt.
    + intros Ho. exists 0%nat, w, o. rewrite Hattempt.
      repeat split; [lia | done].
    + intros Hrest. destruct (IH w1 Hrest) as (n & w' & o & Hn & Hretries & Hlast).
      exists (S n), w', o. simpl. rewrite Hattempt.
      repeat split; [lia | done | apply Hlast | apply Hlast].
  - intros (n & w' & o & Hn & Hretries & Hlast & Ho).
    replace fuel with (n + S (fuel - S n))%nat by lia.
    rewrite (exec_release_retries h u r config n _ w w' Hretries).
    rewrite exec_release_S.
    destruct (attempt h u r config w') as [[o' |] w2]; [| done].
    simpl in Hlast. injection Hlast as ->. done.
Qed.

(** More fuel does not change a run that has ended. *)
Lemma release_fuel_enough (n k : nat) (w : W) :
  (exec h (release u r n config) w).1 <> Exhausted ->
  exec h (release u r (n + k) config) w = exec h (release u r n config) w.
Proof.
  revert w. induction n as [| n IH]; intros w; [done |].
  change (S n + k)%nat with (S (n + k)). rewrite !exec_release_S.
  destruct (attempt h u r config w) as [[o |] w1]; [done | apply IH].
Qed.

End Termination.

(** C6 (as the code has it).  [release] has no retry cap: a pass whose
    [createRelease] fails starts the next pass, any number of times.  A
    pass ends the run when its [findRelease] or [updateRelease] fails with
    a status other than 404 (the error is thrown), when its
    [updateRelease] succeeds, or when its [createRelease] succeeds; the run
    ends exactly when some pass does so.  Under a releaser whose lookup
    always answers 404 and whose creation always fails, [release] never
    ends. *)
Theorem release_has_no_retry_cap
    {E : Type -> Type} `{Console E} {W : Type}
    (h : Handler E W) (u : Util) (r : Releaser E) (config : Config) :
  (forall n w,
      exec h (release u r (S n) config) w
      = match attempt h u r config w with
        | (Some o, w') => (o, w')
        | (None, w') => exec h (release u r n config) w'
        end)
  /\ (forall n k w w',
      retries h u r config n w = Some w' ->
      exec h (release u r (n + k) config) w
      = exec h (release u r k config) w')
  /\ (forall fuel w,
      (exec h (release u r fuel config) w).1 <> Exhausted
      <-> exists n w' o,
            (n < fuel)%nat
            /\ retries h u r config n w = Some w'
            /\ (attempt h u r config w').1 = Some o
            /\ o <> Exhausted)
  /\ ((forall w, exists e w1,
          exec h (findRelease r (find_request config)) w = (Threw e, w1)
          /\ status_is 404 e = true) ->
      (forall w, exists e w1,
          exec h (createRelease r (create_request u config)) w = (Threw e, w1)) ->
      forall fuel w, (exec h (release u r fuel config) w).1 = Exhausted).
Proof.
  split; [apply exec_release_S |].
  split; [apply exec_release_retries |].
  split; [apply release_ends_iff |].
  intros Hfind Hcreate fuel w. apply release_never_ends. clear w.
  intros w. unfold attempt.
  destruct (Hfind w) as (e & w1 & -> & H404).
  unfold attempt_after_error. rewrite H404.
  destruct (Hcreate (logged h StdLog (CreatingRelease (resolve_tag config)) w1))
    as (e' & w2 & ->). done.
Qed.

Lemma release_has_no_retry_cap_witness :
  (exec hopeless (release sample_util recording 100 sample_config) tt).1
  = Exhausted
  /\ exec double (release sample_util recording (3 + 1) sample_config)
       (stubborn 3)
     = exec double (release sample_util recording 1 sample_config) (stubborn 0).
Proof.
  split.
  - refine (proj2 (proj2 (proj2 (release_has_no_retry_cap hopeless sample_util
              recording sample_config))) _ _ 100%nat tt).
    + intros []. exists not_found, tt. split; reflexivity.
    + intros []. exists conflict, tt. reflexivity.
  - exact (proj1 (proj2 (release_has_no_retry_cap double sample_util
             recording sample_config)) 3%nat 1%nat (stubborn 3) (stubborn 0)
             eq_refl).
Defined.

(** C6 (as stated) fails: a run can end although no lookup and no creation
    succeeded; the lookup fails with status 500 and [release] throws. *)
Lemma release_ends_on_a_failed_lookup :
  trace double (release sample_util recording 5 sample_config) failing_double
  = [ Observed (FindReleaseCall (find_request sample_config))
        (Err server_error);
      Observed
        (ReleaserConsole StdLog (UnexpectedError "refs/tags/v1" server_error))
        tt ]
  /\ (exec double (release sample_util recording 5 sample_config)
        failing_double).1
     = Threw server_error.
Proof. split; reflexivity. Qed.

(** ** C5: one release per tag *)

Lemma evolves_refl (srv : Server) : well_formed srv -> evolves srv srv.
Proof. intros Hwf. split; [done |]. intros s Hs. eauto. Qed.

Lemma evolves_trans (srv1 srv2 srv3 : Server) :
  evolves srv1 srv2 -> evolves srv2 srv3 -> evolves srv1 srv3.
Proof.
  intros [_ H12] [Hwf H23]. split; [done |]. intros s Hs.
  destruct (H12 s Hs) as (s2 & Hs2 & Hid2 & Hkey2).
  destruct (H23 s2 Hs2) as (s3 & Hs3 & Hid3 & Hkey3).
  exists s3. repeat split; [done | congruence | congruence].
Qed.

Lemma found_on_service_evolves (owner : string) (repo : option string)
    (tag : string) (release : Release) (srv srv' : Server) :
  found_on_service owner repo tag release srv ->
  evolves srv srv' ->
  found_on_service owner repo tag release srv'.
Proof.
  intros (s & Hs & Hid & Hkey) [_ Hkeeps].
  destruct (Hkeeps s Hs) as (s' & Hs' & Hid' & Hkey').
  exists s'. repeat split; [done | congruence | congruence].
Qed.

Lemma safe_pbind {A B} (p : Prog GitHubE A) (f : A -> Prog GitHubE B)
    (Q : A -> Server -> Prop) (R : B -> Server -> Prop) (srv : Server) :
  safe p Q srv ->
  (forall a srv', Q a srv' -> safe (f a) R srv') ->
  safe (pbind p f) R srv.
Proof.
  intros Hp Hf. revert srv Hp.
  induction p as [a | X e k IH]; intros srv Hp; simpl in *; [by apply Hf |].
  intros srv1 Hsrv1. destruct (Hp srv1 Hsrv1) as [Hstep Hrest].
  split; [done |]. by apply IH.
Qed.

Lemma safe_bind {A B} (m : M GitHubE A) (f : A -> M GitHubE B)
    (Q : Outcome A -> Server -> Prop) (R : B -> Server -> Prop)
    (srv : Server) :
  safe m Q srv ->
  (forall a srv', Q (Returned a) srv' -> safe (f a) (when_returned R) srv') ->
  safe (bind m f) (when_returned R) srv.
Proof.
  intros Hm Hf. eapply safe_pbind; [exact Hm |].
  intros [a | e |] srv' HQ; [by apply Hf | done | done].
Qed.

Lemma safe_try_catch {A} (m : M GitHubE A) (c : Error -> M GitHubE A)
    (Q : Outcome A -> Server -> Prop) (srv : Server) :
  safe m Q srv ->
  (forall e srv', safe (c e) (when_returned anything) srv') ->
  safe (try_catch m c) (when_returned anything) srv.
Proof.
  intros Hm Hc. eapply safe_pbind; [exact Hm |].
  intros [a | e |] srv' HQ; [done | apply Hc | done].
Qed.

Lemma safe_ret {A} (a : A) (Q : A -> Server -> Prop) (srv : Server) :
  Q a srv -> safe (ret (E := GitHubE) a) (when_returned Q) srv.
Proof. done. Qed.

(** A run that was safe stays safe while the service evolves. *)
Lemma safe_evolves {A} (p : M GitHubE A) (srv srv' : Server) :
  safe p (when_returned anything) srv ->
  evolves srv srv' ->
  safe p (when_returned anything) srv'.
Proof.
  destruct p as [[a | e |] | X e k]; simpl; try done.
  intros Hp Hsrv srv1 Hsrv1. apply Hp. by eapply evolves_trans.
Qed.

(** *** What the requests do to the service *)

Lemma has_tag_key (owner : string) (repo : option string) (tag : string)
    (s : Stored) :
  has_tag owner repo tag s = true <-> release_key s = (owner, repo, tag).
Proof.
  unfold has_tag, same_repo, release_key.
  rewrite andb_true_iff, bool_decide_eq_true, String.eqb_eq.
  split; [intros [[-> ->] ->]; done | intros [= -> -> ->]; done].
Qed.

Lemma targets_spec (p : UpdateParams) (s : Stored) :
  targets p s = true
  <-> (st_owner s = up_owner p /\ st_repo s = up_repo p)
      /\ stored_id s = up_release_id p.
Proof.
  unfold targets, same_repo, stored_id.
  rewrite andb_true_iff, bool_decide_eq_true, Z.eqb_eq. done.
Qed.

Lemma same_image {A B} (f : A -> B) (l : list A) (x y : A) :
  List.NoDup (map f l) -> In x l -> In y l -> f x = f y -> x = y.
Proof.
  induction l as [| a l IH]; simpl; [done |].
  intros Hnodup Hx Hy Hxy. inversion Hnodup as [| ? ? Ha Hl]; subst.
  destruct Hx as [-> | Hx], Hy as [-> | Hy].
  - done.
  - exfalso. apply Ha. rewrite Hxy. by apply in_map.
  - exfalso. apply Ha. rewrite <- Hxy. by apply in_map.
  - by apply IH.
Qed.

Lemma create_evolves (p : CreateParams) (srv : Server) :
  well_formed srv -> evolves srv (srv_createRelease p srv).2.
Proof.
  intros Hwf. unfold srv_createRelease.
  destruct (existsb _ (releases srv)) eqn:Hexists; [by apply evolves_refl |].
  destruct Hwf as (Hids & Htags & Hbound). simpl. split.
  - repeat split; simpl.
    + constructor; [| done]. intros Hin. apply in_map_iff in Hin.
      destruct Hin as (s & Hid & Hs).
      rewrite List.Forall_forall in Hbound. specialize (Hbound s Hs).
      unfold stored_id in *. simpl in *. lia.
    + unfold unique_tags. simpl. constructor; [| done].
      intros Hin. apply in_map_iff in Hin. destruct Hin as (s & Hkey & Hs).
      assert (Htag : has_tag (cp_owner p) (cp_repo p) (cp_tag_name p) s = true)
        by (apply has_tag_key; exact Hkey).
      assert (Hthere : existsb (has_tag (cp_owner p) (cp_repo p) (cp_tag_name p))
                         (releases srv) = true)
        by (apply existsb_exists; eauto).
      congruence.
    + constructor; [unfold stored_id; simpl; lia |].
      eapply Forall_impl; [exact Hbound |]. intros s Hs. simpl in Hs. lia.
  - intros s Hs. exists s. simpl. auto.
Qed.

Lemma update_keeps (p : UpdateParams) (srv : Server) (s : Stored) :
  well_formed srv ->
  (forall tag, up_tag_name p = Some tag ->
     exists s0, In s0 (releases srv)
                /\ stored_id s0 = up_release_id p
                /\ release_key s0 = (up_owner p, up_repo p, tag)) ->
  In s (releases srv) ->
  stored_id (if targets p s then apply_update p s else s) = stored_id s
  /\ release_key (if targets p s then apply_update p s else s) = release_key s.
Proof.
  intros (Hids & _ & _) Htag Hs.
  destruct (targets p s) eqn:Htargets; [| done]. split; [done |].
  unfold release_key. simpl.
  destruct (up_tag_name p) as [tag |]; [| done]. simpl.
  destruct (Htag tag eq_refl) as (s0 & Hs0 & Hid0 & Hkey0).
  apply targets_spec in Htargets. destruct Htargets as [_ Hid].
  assert (s = s0) as ->.
  { apply (same_image stored_id (releases srv)); [done | done | done |].
    congruence. }
  unfold release_key in Hkey0. congruence.
Qed.

Lemma update_evolves (p : UpdateParams) (srv : Server) :
  well_formed srv ->
  (forall tag, up_tag_name p = Some tag ->
     exists s0, In s0 (releases srv)
                /\ stored_id s0 = up_release_id p
                /\ release_key s0 = (up_owner p, up_repo p, tag)) ->
  evolves srv (srv_updateRelease p srv).2.
Proof.
  intros Hwf Htag. unfold srv_updateRelease.
  destruct (List.find (targets p) (releases srv)) as [target |];
    [| by apply evolves_refl].
  simpl.
  pose proof (fun s => update_keeps p srv s Hwf Htag) as Hkeeps.
  set (g := fun s => if targets p s then apply_update p s else s) in *.
  assert (Hidmap : map stored_id (map g (releases srv))
                   = map stored_id (releases srv)).
  { rewrite map_map. apply map_ext_in. intros s Hs. apply (Hkeeps s Hs). }
  assert (Hkeymap : map release_key (map g (releases srv))
                    = map release_key (releases srv)).
  { rewrite map_map. apply map_ext_in. intros s Hs. apply (Hkeeps s Hs). }
  destruct Hwf as (Hids & Htags & Hbound). split.
  - repeat split; simpl.
    + by rewrite Hidmap.
    + unfold unique_tags. simpl. by rewrite Hkeymap.
    + rewrite List.Forall_forall in *. intros s' Hs'.
      apply in_map_iff in Hs'. destruct Hs' as (s & <- & Hs).
      unfold g. rewrite (proj1 (Hkeeps s Hs)). by apply Hbound.
  - intros s Hs. exists (g s). simpl. split; [by apply in_map |].
    apply (Hkeeps s Hs).
Qed.

Lemma get_found (p : TagParams) (srv : Server) (release : Release) :
  srv_getReleaseByTag p srv = Ok release ->
  found_on_service (tp_owner p) (tp_repo p) (tp_tag p) release srv.
Proof.
  unfold srv_getReleaseByTag.
  destruct (List.find _ (releases srv)) as [s |] eqn:Hfind; [| done].
  intros [= <-]. apply find_some in Hfind. destruct Hfind as [Hs Htag].
  apply andb_true_iff in Htag. destruct Htag as [Htag _].
  exists s. repeat split; [done |]. by apply has_tag_key.
Qed.

Lemma list_found (p : ListParams) (srv : Server) (data : list Release)
    (more : bool) (release : Release) :
  srv_listReleases p srv = Ok (data, more) ->
  In release data ->
  found_on_service (lp_owner p) (lp_repo p) (tag_name release) release srv.
Proof.
  unfold srv_listReleases. intros [= <- _] Hin.
  apply in_map_iff in Hin. destruct Hin as (s & <- & Hs).
  apply list_elem_of_In, subseteq_take, subseteq_drop, list_elem_of_In in Hs.
  apply filter_In in Hs. destruct Hs as [Hs Hrepo].
  exists s. repeat split; [done |].
  apply has_tag_key. unfold has_tag. rewrite Hrepo, String.eqb_refl. done.
Qed.

(** *** The requests of the client, one by one *)

Lemma safe_console (s : Stream) (m : ConsoleMsg) (srv : Server) :
  safe (perform (console s m))
    (when_returned (fun _ srv' => evolves srv srv')) srv.
Proof.
  simpl. intros srv1 Hsrv1. split; [apply evolves_refl, Hsrv1 | done].
Qed.

Lemma safe_getReleaseByTag (p : TagParams) (srv : Server) :
  safe (GitHubReleaser.getReleaseByTag p)
    (when_returned (found_on_service (tp_owner p) (tp_repo p) (tp_tag p))) srv.
Proof.
  simpl. intros srv1 Hsrv1. split; [apply evolves_refl, Hsrv1 |].
  destruct (srv_getReleaseByTag p srv1) as [release | e] eqn:Hget; [| done].
  simpl. by apply get_found.
Qed.

Lemma safe_createRelease (p : CreateParams) (srv : Server) :
  safe (GitHubReleaser.createRelease p) (when_returned anything) srv.
Proof.
  simpl. intros srv1 Hsrv1. split; [apply create_evolves, Hsrv1 |].
  by destruct (srv_createRelease p srv1).1.
Qed.

Lemma safe_updateRelease (p : UpdateParams) (tag : string)
    (release : Release) (srv : Server) :
  found_on_service (up_owner p) (up_repo p) tag release srv ->
  up_release_id p = id release ->
  up_tag_name p = Some tag ->
  safe (GitHubReleaser.updateRelease p) (when_returned anything) srv.
Proof.
  intros Hfound Hid Htag. simpl. intros srv1 Hsrv1. split.
  - apply update_evolves; [apply Hsrv1 |]. intros tag' Htag'.
    assert (tag' = tag) as -> by congruence.
    destruct (found_on_service_evolves _ _ _ _ _ _ Hfound Hsrv1)
      as (s & Hs & Hsid & Hkey).
    exists s. repeat split; [done | congruence | done].
  - by destruct (srv_updateRelease p srv1).1.
Qed.

Section SafeLookup.
Variables (owner : string) (repo : option string) (tag : string).

Lemma safe_next_page (st : option nat) (srv : Server) :
  safe (GitHubReleaser.next_page owner repo st)
    (when_returned (fun response srv' =>
       match response with
       | Some (data, _) =>
           forall release, In release data ->
             found_on_service owner repo (tag_name release) release srv'
       | None => True
       end)) srv.
Proof.
  destruct st as [page |]; [| done].
  cbn -[srv_listReleases]. intros srv1 Hsrv1.
  split; [apply evolves_refl, Hsrv1 |].
  destruct (srv_listReleases _ srv1) as [[data more] | e] eqn:Hlist; [| done].
  cbn. intros release Hin.
  apply (list_found _ _ _ _ _ Hlist Hin).
Qed.

Lemma safe_scan_pages (fuel : nat) (st : option nat) (srv : Server) :
  safe (scan_pages fuel (GitHubReleaser.allReleases owner repo) st tag)
    (when_returned (fun found srv' =>
       match found with
       | Some release => found_on_service owner repo tag release srv'
       | None => True
       end)) srv.
Proof.
  revert st srv. induction fuel as [| fuel IH]; intros st srv; [done |].
  cbn [scan_pages]. eapply safe_bind; [apply safe_next_page |].
  intros [[data st'] |] srv1 Hdata; [| done].
  destruct (List.find (tag_matches tag) data) as [release |] eqn:Hfind;
    [| apply IH].
  apply find_some in Hfind. destruct Hfind as [Hin Htag].
  apply String.eqb_eq in Htag. specialize (Hdata release Hin).
  rewrite Htag in Hdata.
  eapply safe_bind; [apply safe_console |].
  intros [] srv2 Hsrv2. apply safe_ret.
  by eapply found_on_service_evolves.
Qed.

End SafeLookup.

Lemma safe_findRelease (pages : nat) (params : FindParams) (srv : Server) :
  safe (GitHubReleaser.findRelease pages params)
    (when_returned
       (found_on_service (fp_owner params) (fp_repo params) (fp_tag params)))
    srv.
Proof.
  unfold GitHubReleaser.findRelease.
  eapply safe_bind with
    (Q := when_returned (fun found srv' =>
       match found with
       | Some release =>
           found_on_service (fp_owner params) (fp_repo params)
             (fp_tag params) release srv'
       | None => True
       end)).
  - destruct (fp_draft params); [| done].
    eapply safe_bind; [apply safe_console |].
    intros [] srv1 _. apply safe_scan_pages.
  - intros [release |] srv1 Hfound; [by apply safe_ret |].
    eapply safe_bind; [apply safe_console |].
    intros [] srv2 _. apply (safe_getReleaseByTag (tag_params params)).
Qed.

(** Every run of [release] against the service is safe, wherever it
    starts. *)
Lemma safe_release (u : Util) (pages fuel : nat) (config : Config)
    (srv : Server) :
  safe (release u (GitHubReleaser.releaser pages) fuel config)
    (when_returned anything) srv.
Proof.
  revert srv. induction fuel as [| n IH]; intros srv; [done |].
  rewrite release_S. eapply safe_try_catch.
  - eapply safe_bind; [apply safe_findRelease |].
    intros existing srv1 Hfound.
    eapply safe_bind with (R := anything).
    + eapply safe_updateRelease; [exact Hfound | done | done].
    + intros updated srv2 _. by apply safe_ret.
  - intros e srv1. unfold release_catch. destruct (status_is 404 e).
    + eapply safe_bind; [apply safe_console |]. intros [] srv2 _.
      eapply safe_try_catch.
      * eapply safe_bind with (R := anything); [apply safe_createRelease |].
        intros created srv3 _. by apply safe_ret.
      * intros e' srv3. eapply safe_bind; [apply safe_console |].
        intros [] srv4 _. apply IH.
    + eapply safe_bind; [apply safe_console |]. intros [] srv2 _. done.
Qed.

(** *** Any interleaving of safe runs *)

Lemma step_thread_safe {A} (p : M GitHubE A) (srv : Server) :
  well_formed srv ->
  safe p (when_returned anything) srv ->
  evolves srv (step_thread service p srv).2
  /\ safe (step_thread service p srv).1 (when_returned anything)
       (step_thread service p srv).2.
Proof.
  intros Hwf Hp. destruct p as [o | X e k]; simpl.
  - split; [by apply evolves_refl | done].
  - destruct (Hp srv (evolves_refl srv Hwf)) as [Hstep Hrest].
    destruct (service X e srv) as [x srv']. done.
Qed.

Lemma schedule_safe {A} (sched : list nat) (pool : list (M GitHubE A))
    (srv : Server) :
  well_formed srv ->
  Forall (fun p => safe p (when_returned anything) srv) pool ->
  well_formed (schedule service sched pool srv).2.
Proof.
  revert pool srv.
  induction sched as [| i sched IH]; intros pool srv Hwf Hpool; [done |].
  cbn [schedule]. destruct (pool !! i) as [p |] eqn:Hi; [| by apply IH].
  assert (Hp : safe p (when_returned anything) srv).
  { rewrite Forall_lookup in Hpool. by apply (Hpool i). }
  destruct (step_thread_safe p srv Hwf Hp) as [Hstep Hp'].
  destruct (step_thread service p srv) as [p' srv']. simpl in *.
  apply IH; [apply Hstep |].
  apply Forall_insert; [| done].
  eapply List.Forall_impl; [| exact Hpool].
  intros q Hq. exact (safe_evolves q srv srv' Hq Hstep).
Qed.

(** C5.  Start from a service on which no two releases share owner,
    repository and tag (and identifiers are unique).  Let any number of
    runs of [release] go on side by side, for any configurations, their
    requests reaching the service in any order: at every moment, and so
    when the runs have completed, no two releases share owner, repository
    and tag. *)
Theorem concurrent_releases_keep_tags_unique
    (u : Util) (pages : nat) (runs : list (nat * Config))
    (sched : list nat) (srv : Server) :
  well_formed srv ->
  unique_tags (schedule service sched (release_pool u pages runs) srv).2.
Proof.
  intros Hwf.
  assert (Hfinal : well_formed
            (schedule service sched (release_pool u pages runs) srv).2).
  { apply schedule_safe; [done |]. unfold release_pool.
    apply Forall_map, Forall_forall. intros [fuel config] _.
    apply safe_release. }
  apply Hfinal.
Qed.

Lemma well_formed_empty : well_formed empty_server.
Proof. repeat split; constructor. Qed.

Lemma concurrent_releases_keep_tags_unique_witness :
  unique_tags
    (schedule service race (release_pool sample_util 3 racing_runs)
       empty_server).2
  /\ map finished
       (schedule service race (release_pool sample_util 3 racing_runs)
          empty_server).1
     = [ Some (Returned created_release);
         Some (Returned
           {| id := 1;
              upload_url := "uploads/v1";
              html_url := "releases/tag/v1";
              tag_name := "v1";
              body := "notes" +:+ String "010"%char "notes";
              target_commitish := "master" |}) ]
  /\ map release_key
       (releases
          (schedule service race (release_pool sample_util 3 racing_runs)
             empty_server).2)
     = [("owner", Some "repo", "v1")].
Proof.
  split; [| split; reflexivity].
  apply (concurrent_releases_keep_tags_unique sample_util 3 racing_runs race
           empty_server).
  repeat split; constructor.
Defined.

(** * Further properties of the code *)

(** ** [release]: the creation path *)

(** X1.  When [findRelease] fails with status 404 and [createRelease]
    succeeds, [release] returns the created release; the creation is asked
    for with the resolved tag, the name (defaulting to the tag), the
    configuration's body as it is (nothing is merged), draft and
    prerelease. *)
Theorem release_creates_when_not_found
    {E : Type -> Type} `{Console E} {W : Type}
    (h : Handler E W) (u : Util) (r : Releaser E) (n : nat)
    (config : Config) (w w1 w2 : W) (e : Error) (created : Release) :
  exec h (findRelease r (find_request config)) w = (Threw e, w1) ->
  status_is 404 e = true ->
  exec h
    (createRelease r
       {| cp_owner := (destructure_repository (github_repository config)).1;
          cp_repo := (destructure_repository (github_repository config)).2;
          cp_tag_name := resolve_tag config;
          cp_name := or_string (input_name config) (resolve_tag config);
          cp_body := releaseBody u config;
          cp_draft := input_draft config;
          cp_prerelease := input_prerelease config |})
    (logged h StdLog (CreatingRelease (resolve_tag config)) w1)
  = (Returned created, w2) ->
  exec h (release u r (S n) config) w = (Returned created, w2).
Proof.
  intros Hfind H404 Hcreate. rewrite exec_release_S. unfold attempt.
  rewrite Hfind. unfold attempt_after_error. rewrite H404.
  fold (create_request u config) in Hcreate. rewrite Hcreate. done.
Qed.

Lemma release_creates_when_not_found_witness :
  exec double (release sample_util recording 1 sample_config) (stubborn 0)
  = (Returned created_release,
     {| find_answers := []; create_answers := []; update_answers := [];
        unscripted := not_found |}).
Proof.
  exact (release_creates_when_not_found double sample_util recording 0
           sample_config (stubborn 0) (stubborn 0)
           (mkDouble [] [] [] not_found) not_found created_release
           eq_refl eq_refl eq_refl).
Defined.

(** X2.  The [try] block of [release] covers the update as well: when the
    release that was found cannot be updated because the update fails with
    status 404, [release] goes on to create the release, and retries if
    that fails. *)
Theorem release_creates_when_update_is_not_found
    {E : Type -> Type} `{Console E} {W : Type}
    (h : Handler E W) (u : Util) (r : Releaser E) (n : nat)
    (config : Config) (w w1 w2 : W) (existing : Release) (e : Error) :
  exec h (findRelease r (find_request config)) w = (Returned existing, w1) ->
  exec h (updateRelease r (update_request u config existing)) w1
  = (Threw e, w2) ->
  status_is 404 e = true ->
  exec h (release u r (S n) config) w
  = match exec h (createRelease r (create_request u config))
            (logged h StdLog (CreatingRelease (resolve_tag config)) w2) with
    | (Returned created, w3) => (Returned created, w3)
    | (Threw e', w3) =>
        exec h (release u r n config)
          (logged h StdLog (ReleaseFailedRetrying (status e')) w3)
    | (Exhausted, w3) => (Exhausted, w3)
    end.
Proof.
  intros Hfind Hupdate H404. rewrite exec_release_S. unfold attempt.
  rewrite Hfind, Hupdate. unfold attempt_after_error. rewrite H404.
  destruct (exec h (createRelease r _) _) as [[created | e' |] w3]; done.
Qed.

Lemma release_creates_when_update_is_not_found_witness :
  exec double (release sample_util recording 1 sample_config)
    {| find_answers := [Ok sample_release];
       create_answers := [Ok created_release];
       update_answers := [Err not_found];
       unscripted := server_error |}
  = (Returned created_release,
     {| find_answers := []; create_answers := []; update_answers := [];
        unscripted := server_error |}).
Proof.
  exact (release_creates_when_update_is_not_found double sample_util recording
           0 sample_config
           (mkDouble [Ok sample_release] [Ok created_release] [Err not_found]
              server_error)
           (mkDouble [] [Ok created_release] [Err not_found] server_error)
           (mkDouble [] [Ok created_release] [] server_error)
           sample_release not_found eq_refl eq_refl eq_refl).
Defined.

(** ** [release]: what it returns and what it throws *)

Lemma release_ending_cons (config : Config) (x : Obs ReleaserE)
    (tr : list (Obs ReleaserE)) (o : Outcome Release) :
  release_ending config tr o -> release_ending config (x :: tr) o.
Proof.
  destruct o as [release | e |]; simpl; [| | done].
  - intros (before & [(p & ->) | (p & ->)]); exists (x :: before); eauto.
  - intros (H404 & before & [(p & ->) | (p & ->)]); split; [done | |done |];
      exists (x :: before); eauto.
Qed.

Lemma release_ends_as_expected (u : Util) (fuel : nat) (config : Config)
    (tr : list (Obs ReleaserE)) (o : Outcome Release) :
  Run (release u recording fuel config) tr o -> release_ending config tr o.
Proof.
  revert tr. induction fuel as [| n IH]; intros tr.
  { simpl. intros [_ ->]. done. }
  assert (Hcatch : forall e tr,
    Run (release_catch u recording n config e) tr o ->
    (o = Threw e /\ status_is 404 e = false
     /\ tr = [Observed (ReleaserConsole StdLog
                (UnexpectedError (github_ref config) e)) tt])
    \/ release_ending config tr o).
  { intros e tr0. unfold release_catch.
    destruct (status_is 404 e) eqn:H404; simpl.
    - intros ([] & tr1 & -> & [created | e'] & tr2 & -> & Hrun);
        simpl in Hrun; right.
      + destruct Hrun as [-> ->]. simpl.
        exists [Observed (ReleaserConsole StdLog
                  (CreatingRelease (resolve_tag config))) tt].
        right. eauto.
      + destruct Hrun as ([] & tr3 & -> & Hrun).
        do 3 apply release_ending_cons. by apply IH.
    - intros ([] & tr1 & -> & -> & ->). left. done. }
  rewrite release_S. simpl.
  intros ([existing | e] & tr1 & -> & Hrun); simpl in Hrun.
  - destruct Hrun as ([updated | e] & tr2 & -> & Hrun); simpl in Hrun.
    + destruct Hrun as [-> ->]. simpl.
      exists [Observed (FindReleaseCall (find_request config)) (Ok existing)].
      left. eauto.
    + apply release_ending_cons.
      destruct (Hcatch e tr2 Hrun) as [(-> & H404 & ->) | Hending].
      * simpl. split; [done |]. exists []. right. eauto.
      * by apply release_ending_cons.
  - destruct (Hcatch e tr1 Hrun) as [(-> & H404 & ->) | Hending].
    + simpl. split; [done |]. exists []. left. eauto.
    + by apply release_ending_cons.
Qed.

(** X3.  What [release] returns is always the answer of the
    [updateRelease] or [createRelease] call it made last; the release that
    [findRelease] answered is never returned as it is. *)
Theorem release_returns_what_it_wrote (u : Util) (fuel : nat)
    (config : Config) (tr : list (Obs ReleaserE)) (result : Release) :
  Run (release u recording fuel config) tr (Returned result) ->
  exists before,
    (exists p, tr = before ++ [Observed (UpdateReleaseCall p) (Ok result)])
    \/ (exists p, tr = before ++ [Observed (CreateReleaseCall p) (Ok result)]).
Proof. apply release_ends_as_expected. Qed.

Lemma release_returns_what_it_wrote_witness :
  exists before,
    (exists p,
        trace double (release sample_util recording 2 sample_config)
          retry_double
        = before ++ [Observed (UpdateReleaseCall p) (Ok updated_release)])
    \/ (exists p,
        trace double (release sample_util recording 2 sample_config)
          retry_double
        = before ++ [Observed (CreateReleaseCall p) (Ok updated_release)]).
Proof.
  exact (release_returns_what_it_wrote sample_util 2 sample_config _
           updated_release
           (run_of_exec double (release sample_util recording 2 sample_config)
              retry_double)).
Defined.

(** X4.  An error [release] throws never has status 404 and never comes
    from [createRelease]: it is the error of the [findRelease] or
    [updateRelease] call made just before, and the last thing [release]
    did was to log it. *)
Theorem release_throws_only_lookup_and_update_errors (u : Util) (fuel : nat)
    (config : Config) (tr : list (Obs ReleaserE)) (e : Error) :
  Run (release u recording fuel config) tr (Threw e) ->
  status_is 404 e = false
  /\ exists before,
       (exists p, tr = before
            ++ [Observed (FindReleaseCall p) (Err e);
                Observed (ReleaserConsole StdLog
                  (UnexpectedError (github_ref config) e)) tt])
       \/ (exists p, tr = before
            ++ [Observed (UpdateReleaseCall p) (Err e);
                Observed (ReleaserConsole StdLog
                  (UnexpectedError (github_ref config) e)) tt]).
Proof. apply release_ends_as_expected. Qed.

Lemma release_throws_only_lookup_and_update_errors_witness :
  status_is 404 server_error = false
  /\ exists before,
       (exists p,
           trace double (release sample_util recording 5 sample_config)
             failing_double
           = before
             ++ [Observed (FindReleaseCall p) (Err server_error);
                 Observed (ReleaserConsole StdLog
                   (UnexpectedError (github_ref sample_config) server_error))
                   tt])
       \/ (exists p,
           trace double (release sample_util recording 5 sample_config)
             failing_double
           = before
             ++ [Observed (UpdateReleaseCall p) (Err server_error);
                 Observed (ReleaserConsole StdLog
                   (UnexpectedError (github_ref sample_config) server_error))
                   tt]).
Proof.
  exact (release_throws_only_lookup_and_update_errors sample_util 5
           sample_config _ server_error
           (run_of_exec double (release sample_util recording 5 sample_config)
              failing_double)).
Defined.

(** ** [release]: the calls it makes *)

Lemma release_makes_release_calls (u : Util) (fuel : nat) (config : Config) :
  Always
    (release_call (destructure_repository (github_repository config)).1
       (destructure_repository (github_repository config)).2)
    (release u recording fuel config).
Proof.
  induction fuel as [| n IH]; [constructor |].
  rewrite release_S. apply always_try_catch.
  - apply always_bind; [by apply always_await |].
    intros existing. apply always_bind; [by apply always_await |].
    intros updated. constructor.
  - intros e. unfold release_catch. destruct (status_is 404 e).
    + apply always_bind; [by apply always_perform |]. intros _.
      apply always_try_catch.
      * apply always_bind; [by apply always_await |]. intros r. constructor.
      * intros e'. apply always_bind; [by apply always_perform | done].
    + apply always_bind; [by apply always_perform |]. intros _. constructor.
Qed.

(** X5.  Of the [Releaser] it is given, [release] only uses
    [findRelease], [updateRelease] and [createRelease] (never
    [getReleaseByTag] or [allReleases]), and every call, in every retry,
    names the owner and the repository obtained by splitting
    [github_repository] at its slashes. *)
Theorem release_calls_one_repository
    {W : Type} (h : Handler ReleaserE W) (u : Util) (fuel : nat)
    (config : Config) (w : W) :
  Forall
    (release_call (destructure_repository (github_repository config)).1
       (destructure_repository (github_repository config)).2)
    (trace h (release u recording fuel config) w).
Proof. apply always_trace, release_makes_release_calls. Qed.

(** ** Owner and repository *)

Lemma split_on_absent (sep : ascii) (s : string) :
  contains_char sep s = false -> split_on sep s = (s, []).
Proof.
  induction s as [| c s IH]; simpl; [done |].
  intros Hc. apply orb_false_iff in Hc. destruct Hc as [Hc Hs].
  rewrite (IH Hs), Hc. done.
Qed.

Lemma split_on_first (sep : ascii) (s rest : string) :
  contains_char sep s = false ->
  split_on sep (s +:+ String sep rest)
  = (s, (split_on sep rest).1 :: (split_on sep rest).2).
Proof.
  induction s as [| c s IH]; intros Hs.
  - rewrite append_empty_l. simpl.
    destruct (split_on sep rest) as [field fields].
    rewrite Ascii.eqb_refl. done.
  - rewrite append_cons. simpl in *.
    apply orb_false_iff in Hs. destruct Hs as [Hc Hs].
    rewrite (IH Hs), Hc. done.
Qed.

(** X6.  [const [owner, repo] = github_repository.split("/")]: a
    repository "owner/repo" gives the owner and the repository; anything
    after a second slash is dropped; and a string without a slash gives
    that string as owner and no repository at all. *)
Theorem destructure_repository_fields (owner repo rest : string) :
  contains_char "/" owner = false ->
  contains_char "/" repo = false ->
  destructure_repository (owner +:+ "/" +:+ repo) = (owner, Some repo)
  /\ destructure_repository (owner +:+ "/" +:+ repo +:+ "/" +:+ rest)
     = (owner, Some repo)
  /\ destructure_repository owner = (owner, None).
Proof.
  intros Howner Hrepo. unfold destructure_repository. repeat split.
  - change (owner +:+ "/" +:+ repo) with (owner +:+ String "/" repo).
    rewrite split_on_first, split_on_absent by done. done.
  - change (owner +:+ "/" +:+ repo +:+ "/" +:+ rest)
      with (owner +:+ String "/" (repo +:+ String "/" rest)).
    rewrite !split_on_first by done. done.
  - rewrite split_on_absent by done. done.
Qed.

Lemma destructure_repository_fields_witness :
  destructure_repository "fluree/action-gh-release"
  = ("fluree", Some "action-gh-release")
  /\ destructure_repository "fluree/action-gh-release/extra"
     = ("fluree", Some "action-gh-release")
  /\ destructure_repository "fluree" = ("fluree", None).
Proof.
  exact (destructure_repository_fields "fluree" "action-gh-release" "extra"
           eq_refl eq_refl).
Defined.

(** ** The MIME type of an asset *)

(** X7.  The content type [mimeOrDefault] answers is never empty: it is
    the answer of the MIME table when the table gives a non-empty one, and
    [application/octet-stream] in every other case (no answer, or an empty
    one). *)
Theorem mimeOrDefault_never_empty (u : Util) (path : string) :
  mimeOrDefault u path <> ""
  /\ (getType u path = Some (mimeOrDefault u path)
      \/ mimeOrDefault u path = "application/octet-stream"
         /\ (getType u path = None \/ getType u path = Some "")).
Proof.
  unfold mimeOrDefault, or_string.
  destruct (getType u path) as [mime |]; [| split; [done | auto]].
  destruct (String.eqb mime "") eqn:Hmime.
  - apply String.eqb_eq in Hmime. subst. split; [done | auto].
  - apply String.eqb_neq in Hmime. split; [done | auto].
Qed.

(** ** [findRelease]: failures and requests *)

Lemma scan_pages_failed (owner : string) (repo : option string)
    (tag : string) (before : list (list Release)) (e : Error)
    (first fuel : nat) :
  (length before < fuel)%nat ->
  Forall (fun page => List.find (tag_matches tag) page = None) before ->
  Run (scan_pages fuel (GitHubReleaser.allReleases owner repo) (Some first) tag)
    (page_observations owner repo first before
     ++ [Observed (list_request owner repo (first + length before)) (Err e)])
    (Threw e).
Proof.
  revert first fuel.
  induction before as [| page before IH]; intros first fuel Hfuel Hnone.
  - destruct fuel as [| fuel]; [simpl in Hfuel; lia |].
    simpl. rewrite Nat.add_0_r. eexists (Err e), _.
    split; [reflexivity |]. simpl. done.
  - destruct fuel as [| fuel]; [simpl in Hfuel; lia |].
    inversion Hnone as [| ? ? Hpage Hrest]; subst.
    simpl. eexists (Ok (page, true)), _. split; [reflexivity |].
    simpl. rewrite Hpage.
    replace (first + S (length before))%nat
      with (S first + length before)%nat by lia.
    apply IH; [simpl in Hfuel; lia | done].
Qed.

(** X8.  A page of the release list that cannot be read ends the draft
    lookup at once: [findRelease] throws the error of the page request,
    asks for no further page and does not fall back to the lookup by
    tag. *)
Theorem findRelease_throws_the_error_of_a_page
    (pages : nat) (params : FindParams) (before : list (list Release))
    (e : Error) :
  fp_draft params = true ->
  (length before < pages)%nat ->
  Forall (Forall (fun r => tag_name r <> fp_tag params)) before ->
  Run (GitHubReleaser.findRelease pages params)
    (Observed (ConsoleOut StdLog (LookingForDraft (fp_tag params))) tt
     :: page_observations (fp_owner params) (fp_repo params) 1 before
     ++ [Observed
           (list_request (fp_owner params) (fp_repo params)
              (S (length before)))
           (Err e)])
    (Threw e).
Proof.
  intros Hdraft Hpages Hbefore.
  assert (Hnone : Forall
            (fun page => List.find (tag_matches (fp_tag params)) page = None)
            before).
  { eapply List.Forall_impl; [| exact Hbefore].
    intros page. apply find_no_match. }
  unfold GitHubReleaser.findRelease. rewrite Hdraft. unfold bind at 1.
  match goal with |- Run _ ?tr _ => rewrite <- (app_nil_r tr) end.
  eapply run_pbind.
  - simpl. exists tt. eexists. split; [reflexivity |].
    apply (scan_pages_failed (fp_owner params) (fp_repo params)
             (fp_tag params) before e 1 pages Hpages Hnone).
  - simpl. done.
Qed.

Lemma findRelease_throws_the_error_of_a_page_witness :
  Run (GitHubReleaser.findRelease 3 draft_lookup)
    [ Observed (ConsoleOut StdLog (LookingForDraft "v1")) tt;
      Observed (list_request "owner" (Some "repo") 1)
        (Ok ([other_release], true));
      Observed (list_request "owner" (Some "repo") 2) (Err server_error) ]
    (Threw server_error).
Proof.
  exact (findRelease_throws_the_error_of_a_page 3 draft_lookup
           [[other_release]] server_error eq_refl ltac:(simpl; lia)
           ltac:(repeat constructor; simpl; discriminate)).
Defined.

Lemma always_mono {E A} (P Q : Obs E -> Prop) (p : Prog E A) :
  (forall o, P o -> Q o) -> Always P p -> Always Q p.
Proof.
  intros HPQ Hp. induction Hp as [a | X e k He Hk IH]; constructor; auto.
Qed.

Lemma scan_pages_lookup_requests (params : FindParams) (fuel : nat)
    (st : option nat) :
  Always (lookup_request params)
    (scan_pages fuel
       (GitHubReleaser.allReleases (fp_owner params) (fp_repo params))
       st (fp_tag params)).
Proof.
  revert st. induction fuel as [| fuel IH]; intros st; [constructor |].
  cbn [scan_pages]. apply always_bind.
  - destruct st as [page |]; [| constructor].
    cbn [it_next GitHubReleaser.allReleases GitHubReleaser.next_page].
    apply always_bind; [by apply always_await |].
    intros [data more]. constructor.
  - intros [[data st'] |]; [| constructor].
    destruct (List.find _ data) as [release |]; [| apply IH].
    apply always_bind; [by apply always_perform |]. intros _. constructor.
Qed.

Lemma findRelease_lookup_requests (pages : nat) (params : FindParams) :
  Always (lookup_request params) (GitHubReleaser.findRelease pages params).
Proof.
  unfold GitHubReleaser.findRelease. apply always_bind.
  - destruct (fp_draft params); [| constructor].
    apply always_bind; [by apply always_perform |]. intros _.
    apply scan_pages_lookup_requests.
  - intros [release |]; [constructor |].
    apply always_bind; [by apply always_perform |]. intros _.
    by apply always_await.
Qed.

(** Reading leaves the service as it was. *)
Lemma exec_service_reads {A} (p : Prog GitHubE A) (srv : Server) :
  Always (fun o => obs_is_read o = true) p -> (exec service p srv).2 = srv.
Proof.
  intros Hp. revert srv.
  induction Hp as [a | X e k He Hk IH]; intros srv; [done |].
  simpl. destruct (service X e srv) as [x srv'] eqn:Hstep.
  rewrite IH. specialize (He x).
  destruct e; simpl in *; try discriminate; by inversion Hstep.
Qed.

(** X9.  [findRelease] is a pure lookup.  Whatever the answers, it only
    prints, asks for pages of 100 releases of the owner and repository it
    was given, and asks for the release of the tag it was given; it never
    creates, updates or uploads, and so leaves the releases of the service
    as they were. *)
Theorem findRelease_only_reads (pages : nat) (params : FindParams) :
  (forall (W : Type) (h : Handler GitHubE W) (w : W),
      Forall (lookup_request params)
        (trace h (GitHubReleaser.findRelease pages params) w))
  /\ (forall srv : Server,
      (exec service (GitHubReleaser.findRelease pages params) srv).2 = srv).
Proof.
  split.
  - intros W h w. apply always_trace, findRelease_lookup_requests.
  - intros srv. apply exec_service_reads.
    eapply always_mono; [| apply findRelease_lookup_requests].
    intros [X e x]. by destruct e.
Qed.

(** ** [run]: the requests it makes *)

Lemma always_for_each_in {E A} (P : Obs E -> Prop) (xs : list A)
    (f : A -> M E unit) :
  (forall x, In x xs -> Always P (f x)) -> Always P (for_each xs f).
Proof.
  induction xs as [| x xs IH]; simpl; intros Hf; [constructor |].
  apply always_bind; [apply Hf; auto |]. intros _. apply IH. auto.
Qed.

Section RunRequests.
Variable P : Obs GitHubE -> Prop.
Hypothesis P_console : forall s m x, P (Observed (ConsoleOut s m) x).
Hypothesis P_list : forall p x, P (Observed (ListReleasesReq p) x).
Hypothesis P_get : forall p x, P (Observed (GetReleaseByTagReq p) x).
Hypothesis P_failed : forall msg x, P (Observed (SetFailed msg) x).
Hypothesis P_output : forall name value x, P (Observed (SetOutput name value) x).

Lemma release_requests_of (u : Util) (pages fuel : nat) (config : Config) :
  (forall p x, cp_draft p = input_draft config ->
     P (Observed (CreateReleaseReq p) x)) ->
  (forall p x, up_draft p = input_draft config -> up_tag_name p <> None ->
     P (Observed (UpdateReleaseReq p) x)) ->
  Always P (release u (GitHubReleaser.releaser pages) fuel config).
Proof.
  intros P_create P_update. induction fuel as [| n IH]; [constructor |].
  rewrite release_S. apply always_try_catch.
  - apply always_bind; [by apply findRelease_requests |].
    intros existing. apply always_bind.
    + apply always_await. intros x. by apply P_update.
    + intros updated. constructor.
  - intros e. unfold release_catch. destruct (status_is 404 e).
    + apply always_bind; [by apply always_perform |]. intros _.
      apply always_try_catch.
      * apply always_bind.
        -- apply always_await. intros x. by apply P_create.
        -- intros r. constructor.
      * intros e'. apply always_bind; [by apply always_perform | done].
    + apply always_bind; [by apply always_perform |]. intros _. constructor.
Qed.

Variables (u : Util) (parsed : Config).
Hypothesis P_create : forall p x,
  cp_draft p = initial_draft parsed -> P (Observed (CreateReleaseReq p) x).
Hypothesis P_update : forall p x,
  up_draft p = initial_draft parsed -> up_tag_name p <> None ->
  P (Observed (UpdateReleaseReq p) x).
Hypothesis P_upload : forall url files path x,
  input_files parsed = Some files -> In path (paths u files) ->
  P (Observed (UploadReleaseAssetReq url (asset u path)) x).

Lemma uploads_requests (rel : Release) :
  Always P
    match input_files parsed with
    | Some input_files =>
        let files := paths u input_files in
        (if bool_decide (length files = 0%nat)
         then perform (console StdWarn (NoValidFiles input_files))
         else ret tt) ;;
        for_each files (fun path => detached (upload u (upload_url rel) path))
    | None => ret tt
    end.
Proof.
  pose proof P_upload as Hupload.
  destruct (input_files parsed) as [files |]; [| constructor].
  cbv zeta. apply always_bind.
  - destruct (bool_decide _); [by apply always_perform | constructor].
  - intros _. apply always_for_each_in. intros path Hpath.
    unfold detached, upload. apply always_pbind; [| constructor].
    apply always_bind; [by apply always_perform |]. intros _.
    apply always_await. intros x. by eapply Hupload.
Qed.

Lemma run_requests (fuel pages : nat) :
  Always P (run u fuel pages parsed).
Proof.
  rewrite run_checks. apply always_try_catch.
  2: { intros e. by apply always_perform. }
  apply always_bind.
  { destruct (_ && _); constructor. }
  intros _. apply always_bind.
  { clear P_upload. destruct (input_files parsed) as [files |]; [| constructor].
    cbv zeta. apply always_bind.
    - apply always_for_each. intros pattern. by apply always_perform.
    - intros _. destruct (_ && _); constructor. }
  intros _. unfold release_and_upload. cbv zeta.
  rewrite !deref_singleton.
  assert (Hdraft : initial_draft parsed
                   = if truthy_flag (input_draft_until_assets_uploaded parsed)
                     then Some true else input_draft parsed) by done.
  destruct (truthy_flag (input_draft_until_assets_uploaded parsed)) eqn:Hflag.
  - apply always_bind_bind; [by apply always_perform |]. intros [].
    apply always_bind_ret.
    rewrite !deref_assign_input_draft.
    cbn [set_input_draft input_draft input_draft_until_assets_uploaded
           input_files truthy_flag negb andb].
    rewrite Hflag. cbn [andb].
    apply always_bind.
    { apply release_requests_of.
      - intros p x Hp. apply P_create. by rewrite Hdraft.
      - intros p x Hp Htag. apply P_update; [by rewrite Hdraft | done]. }
    intros rel. apply always_bind.
    { apply uploads_requests. }
    intros _. apply always_bind; [constructor |]. intros _.
    apply always_bind; [by apply always_perform |]. intros _.
    apply always_bind; [by apply always_perform |]. intros _.
    by apply always_perform.
  - apply always_bind_ret. rewrite !deref_singleton, Hflag. cbn [andb].
    apply always_bind.
    { apply release_requests_of.
      - intros p x Hp. apply P_create. by rewrite Hdraft.
      - intros p x Hp Htag. apply P_update; [by rewrite Hdraft | done]. }
    intros rel. apply always_bind.
    { apply uploads_requests. }
    intros _. apply always_bind; [constructor |]. intros _.
    apply always_bind; [by apply always_perform |]. intros _.
    apply always_bind; [by apply always_perform |]. intros _.
    by apply always_perform.
Qed.

End RunRequests.

(** X10.  [run] never reaches [publishRelease].  Every [updateRelease]
    request of a run names a tag, as the update made by [release] does
    and the one made by [publishRelease] does not: with the
    draft-until-uploaded flag off the guard of the call is false, and
    with the flag on the draft flag read by the guard is the one [run] has
    just set to [true] through [initialConfig]. *)
Theorem run_never_calls_publishRelease
    {W : Type} (h : Handler GitHubE W) (u : Util) (fuel pages : nat)
    (parsed : Config) (w : W) :
  Forall update_names_tag (trace h (run u fuel pages parsed) w).
Proof. apply always_trace, run_requests; simpl; done. Qed.

(** X11.  Every create and update request of a run asks for the same
    draft value: [true] when the draft-until-uploaded flag is on, whatever
    the user asked for, and the user's [draft] input as it is (absent when
    absent) when the flag is off. *)
Theorem run_asks_for_one_draft_value
    {W : Type} (h : Handler GitHubE W) (u : Util) (fuel pages : nat)
    (parsed : Config) (w : W) :
  Forall
    (asks_for_draft
       (if truthy_flag (input_draft_until_assets_uploaded parsed)
        then Some true else input_draft parsed))
    (trace h (run u fuel pages parsed) w).
Proof. apply always_trace, run_requests; simpl; done. Qed.

(** X12.  [run] uploads nothing but the files found for the configured
    patterns: every upload request carries the asset (base name, content
    type from [mimeOrDefault], size, content) of a path that [paths] gives
    for [input_files]; without [input_files] there is no upload. *)
Theorem run_uploads_only_listed_paths
    {W : Type} (h : Handler GitHubE W) (u : Util) (fuel pages : nat)
    (parsed : Config) (w : W) :
  Forall (uploads_listed_path u parsed) (trace h (run u fuel pages parsed) w).
Proof.
  apply always_trace, run_requests; try (simpl; done).
  intros url files path x Hfiles Hpath. simpl. eauto.
Qed.

(** ** [run]: how it ends *)

Lemma run_pbind_inv {E A B} (p : Prog E A) (f : A -> Prog E B)
    (tr : list (Obs E)) (b : B) :
  Run (pbind p f) tr b ->
  exists tr1 a tr2, Run p tr1 a /\ Run (f a) tr2 b /\ tr = tr1 ++ tr2.
Proof.
  revert tr. induction p as [a | X e k IH]; intros tr; simpl.
  - intros Hf. exists [], a, tr. done.
  - intros (x & tr' & -> & Hrun).
    destruct (IH x tr' Hrun) as (tr1 & a & tr2 & Hp & Hf & ->).
    exists (Observed e x :: tr1), a, tr2. repeat split; [| done].
    exists x, tr1. done.
Qed.

Lemma body_ending_after {A} (m : M GitHubE A) (f : A -> M GitHubE unit)
    (tr : list (Obs GitHubE)) (o : Outcome unit) :
  Always quiet m ->
  (forall a tr o, Run (f a) tr o -> body_ending tr o) ->
  Run (bind m f) tr o ->
  body_ending tr o.
Proof.
  intros Hm Hf Hrun. apply run_pbind_inv in Hrun.
  destruct Hrun as (tr1 & o1 & tr2 & Hm1 & Hrest & ->).
  pose proof (always_run quiet m tr1 o1 Hm Hm1) as Hquiet.
  assert (Hprefix : forall o, body_ending tr2 o -> body_ending (tr1 ++ tr2) o).
  { intros o' (before & Hbefore & Hshape). exists (tr1 ++ before).
    split; [by apply Forall_app |].
    destruct o' as [[] | e |]; [| by subst | by subst].
    destruct Hshape as (rel & ->). exists rel. by rewrite app_assoc. }
  apply Hprefix. destruct o1 as [a | e |].
  - by eapply Hf.
  - simpl in Hrest. destruct Hrest as [-> ->]. exists []. done.
  - simpl in Hrest. destruct Hrest as [-> ->]. exists []. done.
Qed.

Lemma quiet_release (u : Util) (pages fuel : nat) (config : Config) :
  Always quiet (release u (GitHubReleaser.releaser pages) fuel config).
Proof. apply release_requests; simpl; done. Qed.

Lemma quiet_publishRelease (pages : nat) (config : Config) (releaseId : Z) :
  Always quiet
    (publishRelease (GitHubReleaser.releaser pages) config releaseId).
Proof.
  unfold publishRelease.
  destruct (destructure_repository (github_repository config)).
  cbv zeta. apply always_bind; [by apply always_await |].
  intros r. constructor.
Qed.

Lemma run_body_ending (u : Util) (fuel pages : nat) (heap : gmap nat Config)
    (tr : list (Obs GitHubE)) (o : Outcome unit) :
  Run (release_and_upload u fuel pages heap 0%nat) tr o -> body_ending tr o.
Proof.
  unfold release_and_upload. cbv zeta.
  apply body_ending_after.
  { destruct (truthy_flag _); [| constructor].
    apply always_bind; [by apply always_perform |]. intros _. constructor. }
  clear tr o. intros heap' tr o. apply body_ending_after; [apply quiet_release |].
  clear tr o. intros rel tr o. apply body_ending_after.
  { destruct (input_files _) as [files |]; [| constructor].
    cbv zeta. apply always_bind.
    - destruct (bool_decide _); [by apply always_perform | constructor].
    - intros _. apply always_for_each. intros path. unfold detached, upload.
      apply always_pbind; [| constructor].
      apply always_bind; [by apply always_perform |]. intros _.
      by apply always_await. }
  clear tr o. intros _ tr o. apply body_ending_after.
  { destruct (_ && _); [| constructor].
    apply always_bind; [by apply always_perform |]. intros _.
    apply always_bind; [apply quiet_publishRelease |]. intros _. constructor. }
  clear tr o. intros _ tr o. simpl.
  intros ([] & tr1 & -> & [] & tr2 & -> & [] & tr3 & -> & -> & ->).
  exists []. split; [constructor |]. exists rel. done.
Qed.

(** X13.  [run] never rejects: it ends by reporting, exactly once and as
    its last action.  Either it prints the release's URL and sets the
    outputs [url] and [upload_url] to the two URLs of one release, or it
    calls [setFailed] with the message of an error; nothing before that is
    a [setFailed] or a [setOutput], so a run never signals both. *)
Theorem run_reports_once_at_the_end
    {W : Type} (h : Handler GitHubE W) (u : Util) (fuel pages : nat)
    (parsed : Config) (w : W) :
  exists before,
    Forall quiet before
    /\ match (exec h (run u fuel pages parsed) w).1 with
       | Returned _ =>
           (exists rel,
               trace h (run u fuel pages parsed) w = before ++ reports rel)
           \/ (exists msg,
               trace h (run u fuel pages parsed) w
               = before ++ [Observed (SetFailed msg) tt])
       | Threw _ => False
       | Exhausted => trace h (run u fuel pages parsed) w = before
       end.
Proof.
  pose proof (run_of_exec h (run u fuel pages parsed) w) as Hrun.
  revert Hrun.
  generalize (trace h (run u fuel pages parsed) w) as tr.
  generalize (exec h (run u fuel pages parsed) w).1 as o.
  intros o tr. change (Run (run u fuel pages parsed) tr o -> run_ending tr o).
  rewrite run_checks. intros Hrun. apply run_pbind_inv in Hrun.
  destruct Hrun as (tr1 & o1 & tr2 & Hbody & Hcatch & ->).
  assert (Hending : body_ending tr1 o1).
  { revert Hbody. apply body_ending_after.
    { destruct (_ && _); constructor. }
    intros _ tr o'. apply body_ending_after.
    { destruct (input_files parsed) as [files |]; [| constructor].
      cbv zeta. apply always_bind.
      - apply always_for_each. intros pattern. by apply always_perform.
      - intros _. destruct (_ && _); constructor. }
    intros _ tr' o''. apply run_body_ending. }
  destruct Hending as (before & Hquiet & Hshape).
  exists before. split; [done |].
  destruct o1 as [[] | e |]; simpl in Hcatch.
  - destruct Hcatch as [-> ->]. left. destruct Hshape as (rel & ->).
    exists rel. by rewrite app_nil_r.
  - destruct Hcatch as ([] & tr3 & -> & -> & ->). right.
    exists (message e). by subst.
  - destruct Hcatch as [-> ->]. subst. by rewrite app_nil_r.
Qed.

(** X14.  Without a tag name and with a ref that is no tag, [run] does
    one thing only: it calls [setFailed] saying that a tag is required.
    No warning is printed, no pattern is looked at and no request is
    made. *)
Theorem run_requires_a_tag
    {W : Type} (h : Handler GitHubE W) (u : Util) (fuel pages : nat)
    (parsed : Config) (w : W) :
  has_a_tag u parsed = false ->
  trace h (run u fuel pages parsed) w
  = [Observed (SetFailed (message requires_a_tag)) tt]
  /\ (exec h (run u fuel pages parsed) w).1 = Returned tt.
Proof.
  intros Htag. rewrite run_checks.
  replace (negb (truthy_string (input_tag_name parsed))
           && negb (isTag u (github_ref parsed)))
    with (negb (has_a_tag u parsed))
    by (unfold has_a_tag; apply negb_orb).
  rewrite Htag. cbn [negb]. split.
  - run_steps. done.
  - rewrite exec_try_catch, exec_bind, exec_throw.
    apply exec_report_failure.
Qed.

Lemma run_requires_a_tag_witness :
  trace service (run sample_util 3 3 branch_config) empty_server
  = [Observed (SetFailed "⚠️ GitHub Releases requires a tag") tt].
Proof.
  exact (proj1 (run_requires_a_tag service sample_util 3 3 branch_config
                  empty_server eq_refl)).
Defined.

(** ** [release] against the service *)

Lemma exec_findRelease_by_tag (pages : nat) (params : FindParams)
    (srv : Server) :
  fp_draft params = false ->
  exec service (GitHubReleaser.findRelease pages params) srv
  = (outcome_of (srv_getReleaseByTag (tag_params params) srv), srv).
Proof.
  intros Hdraft. unfold GitHubReleaser.findRelease. rewrite Hdraft.
  cbn -[srv_getReleaseByTag]. fold (tag_params params).
  destruct (srv_getReleaseByTag (tag_params params) srv); done.
Qed.

Lemma find_absent {A} (f : A -> bool) (l : list A) :
  (forall x, In x l -> f x = false) -> List.find f l = None.
Proof.
  induction l as [| a l IH]; simpl; intros Hf; [done |].
  rewrite (Hf a) by auto. apply IH. auto.
Qed.

(** The one element of a list that satisfies [g], when [g] determines
    the image under an injective [f]. *)
Lemma find_the_one {A B} (f : A -> B) (g : A -> bool) (l : list A) (s : A) :
  List.NoDup (map f l) ->
  In s l ->
  g s = true ->
  (forall x, In x l -> g x = true -> f x = f s) ->
  List.find g l = Some s.
Proof.
  intros Hnodup Hs Hgs Hsame.
  destruct (List.find g l) as [x |] eqn:Hfind.
  - apply find_some in Hfind. destruct Hfind as [Hx Hgx].
    f_equal. apply (same_image f l); auto.
  - pose proof (find_none _ _ Hfind s Hs). congruence.
Qed.

Lemma exec_createRelease_service (pages : nat) (p : CreateParams)
    (srv : Server) :
  exec service (createRelease (GitHubReleaser.releaser pages) p) srv
  = (outcome_of (srv_createRelease p srv).1, (srv_createRelease p srv).2).
Proof.
  cbn -[srv_createRelease].
  destruct (srv_createRelease p srv) as [[created | e] srv']; done.
Qed.

Lemma exec_updateRelease_service (pages : nat) (p : UpdateParams)
    (srv : Server) :
  exec service (updateRelease (GitHubReleaser.releaser pages) p) srv
  = (outcome_of (srv_updateRelease p srv).1, (srv_updateRelease p srv).2).
Proof.
  cbn -[srv_updateRelease].
  destruct (srv_updateRelease p srv) as [[updated | e] srv']; done.
Qed.

Lemma has_tag_absent (owner : string) (repo : option string) (tag : string)
    (l : list Stored) :
  (forall s, In s l -> release_key s <> (owner, repo, tag)) ->
  forall s, In s l -> has_tag owner repo tag s = false.
Proof.
  intros Habsent s Hs. destruct (has_tag owner repo tag s) eqn:Htag; [| done].
  apply has_tag_key in Htag. by apply Habsent in Hs.
Qed.

(** X15.  A run for a tag that has no release in the repository, asked
    for a release that is no draft, creates that release and returns it:
    one release is added for the tag, with the configuration's body and
    name. *)
Theorem release_creates_the_missing_release
    (u : Util) (pages n : nat) (config : Config) (srv : Server)
    (owner : string) (repo : option string) (tag : string) :
  destructure_repository (github_repository config) = (owner, repo) ->
  resolve_tag config = tag ->
  truthy_flag (input_draft config) = false ->
  (forall s, In s (releases srv) -> release_key s <> (owner, repo, tag)) ->
  exists created stored,
    exec service (release u (GitHubReleaser.releaser pages) (S n) config) srv
    = (Returned created,
       {| next_id := next_id srv + 1;
          releases := stored :: releases srv;
          uploads := uploads srv |})
    /\ st_release stored = created
    /\ release_key stored = (owner, repo, tag)
    /\ st_draft stored = false
    /\ st_name stored = or_string (input_name config) tag
    /\ id created = next_id srv
    /\ body created = default "" (releaseBody u config).
Proof.
  intros Hrepo Htag Hdraft Habsent.
  pose proof (has_tag_absent owner repo tag _ Habsent) as Hnone.
  rewrite exec_release_S. unfold attempt.
  cbn [findRelease GitHubReleaser.releaser].
  rewrite exec_findRelease_by_tag by done.
  unfold srv_getReleaseByTag. rewrite find_absent.
  2: { intros s Hs. cbn. rewrite Hrepo, Htag. cbn. by rewrite (Hnone s Hs). }
  cbn [outcome_of]. unfold attempt_after_error.
  change (status_is 404 not_found) with true. cbv iota.
  rewrite exec_createRelease_service.
  change (logged service StdLog (CreatingRelease (resolve_tag config)) srv)
    with srv.
  unfold srv_createRelease, create_request. rewrite Hrepo, Htag.
  cbn [cp_owner cp_repo cp_tag_name cp_name cp_body cp_draft cp_prerelease
         fst snd].
  replace (existsb (has_tag owner repo tag) (releases srv)) with false.
  2: { symmetry. apply not_true_is_false. intros Hex.
       apply existsb_exists in Hex. destruct Hex as (s & Hs & Hs_tag).
       rewrite (Hnone s Hs) in Hs_tag. done. }
  cbn [fst snd outcome_of]. eexists _, _. split; [reflexivity |].
  repeat split. cbn. destruct (input_draft config) as [[] |]; done.
Qed.

Lemma release_creates_the_missing_release_witness :
  exists created stored,
    exec service
      (release sample_util (GitHubReleaser.releaser 3) 1 sample_config)
      empty_server
    = (Returned created,
       {| next_id := 2; releases := [stored]; uploads := [] |})
    /\ st_release stored = created
    /\ release_key stored = ("owner", Some "repo", "v1")
    /\ st_draft stored = false
    /\ st_name stored = "v1"
    /\ id created = 1
    /\ body created = "notes".
Proof.
  exact (release_creates_the_missing_release sample_util 3 0 sample_config
           empty_server "owner" (Some "repo") "v1" eq_refl eq_refl eq_refl
           ltac:(intros s [])).
Defined.

(** X16.  A run for a tag whose release is published, asked for a release
    that is no draft, creates nothing: it updates that release, keeping
    its identifier and target commit and appending the configuration's
    body to its body, and returns it. *)
Theorem release_updates_the_published_release
    (u : Util) (pages n : nat) (config : Config) (srv : Server)
    (owner : string) (repo : option string) (tag : string) (s : Stored) :
  destructure_repository (github_repository config) = (owner, repo) ->
  resolve_tag config = tag ->
  truthy_flag (input_draft config) = false ->
  well_formed srv ->
  In s (releases srv) ->
  release_key s = (owner, repo, tag) ->
  st_draft s = false ->
  exists updated srv',
    exec service (release u (GitHubReleaser.releaser pages) (S n) config) srv
    = (Returned updated, srv')
    /\ id updated = stored_id s
    /\ tag_name updated = tag
    /\ target_commitish updated = target_commitish (st_release s)
    /\ body updated
       = body (st_release s) +:+ String "010"%char
           (interpolate (releaseBody u config))
    /\ next_id srv' = next_id srv
    /\ map stored_id (releases srv') = map stored_id (releases srv)
    /\ map release_key (releases srv') = map release_key (releases srv).
Proof.
  intros Hrepo Htag Hdraft Hwf Hs Hkey Hpublished.
  pose proof Hwf as (Hids & Htags & _).
  assert (Hs_tag : has_tag owner repo tag s = true) by by apply has_tag_key.
  rewrite exec_release_S. unfold attempt.
  cbn [findRelease GitHubReleaser.releaser].
  rewrite exec_findRelease_by_tag by done.
  unfold srv_getReleaseByTag.
  rewrite (find_the_one release_key _ (releases srv) s); [| done | done | |].
  2: { cbn. rewrite Hrepo, Htag. cbn. by rewrite Hs_tag, Hpublished. }
  2: { intros x Hx Hgx. cbn in Hgx. rewrite Hrepo, Htag in Hgx. cbn in Hgx.
       apply andb_true_iff in Hgx. destruct Hgx as [Hx_tag _].
       apply has_tag_key in Hx_tag. congruence. }
  cbn [outcome_of]. rewrite exec_updateRelease_service.
  set (p := update_request u config (st_release s)).
  assert (Htargets : targets p s = true).
  { apply targets_spec. unfold p, update_request. rewrite Hrepo. cbn.
    unfold release_key in Hkey. injection Hkey as Ho Hr Ht.
    repeat split; done. }
  unfold srv_updateRelease.
  rewrite (find_the_one stored_id _ (releases srv) s); [| done | done | done |].
  2: { intros x Hx Hgx. apply targets_spec in Hgx, Htargets.
       destruct Hgx as [_ ->], Htargets as [_ ->]. done. }
  cbn [fst snd outcome_of]. eexists _, _. split; [reflexivity |].
  assert (Hkeeps : forall x, In x (releases srv) ->
            stored_id (if targets p x then apply_update p x else x)
            = stored_id x
            /\ release_key (if targets p x then apply_update p x else x)
               = release_key x).
  { intros x Hx. apply (update_keeps p srv x Hwf); [| done].
    intros tag' Htag'. exists s. unfold p, update_request in *. cbn in *.
    rewrite Hrepo. cbn. repeat split; congruence. }
  unfold p at 1 2 3 4, update_request. cbn. rewrite Htag.
  repeat split.
  - rewrite map_map. apply map_ext_in. intros x Hx. apply (Hkeeps x Hx).
  - rewrite map_map. apply map_ext_in. intros x Hx. apply (Hkeeps x Hx).
Qed.

(** X17.  A run asked for a release that is no draft, for a tag that a
    draft release holds, never ends: the lookup by tag does not see the
    draft, the creation is refused because the tag is taken, and
    [release] starts over, the service staying as it is. *)
Theorem release_retries_forever_behind_a_draft
    (u : Util) (pages fuel : nat) (config : Config) (srv : Server)
    (owner : string) (repo : option string) (tag : string) (s : Stored) :
  destructure_repository (github_repository config) = (owner, repo) ->
  resolve_tag config = tag ->
  truthy_flag (input_draft config) = false ->
  unique_tags srv ->
  In s (releases srv) ->
  release_key s = (owner, repo, tag) ->
  st_draft s = true ->
  exec service (release u (GitHubReleaser.releaser pages) fuel config) srv
  = (Exhausted, srv).
Proof.
  intros Hrepo Htag Hdraft Htags Hs Hkey Hs_draft.
  induction fuel as [| n IH]; [done |].
  rewrite exec_release_S. unfold attempt.
  cbn [findRelease GitHubReleaser.releaser].
  rewrite exec_findRelease_by_tag by done.
  unfold srv_getReleaseByTag. rewrite find_absent.
  2: { intros x Hx. cbn. rewrite Hrepo, Htag. cbn.
       destruct (has_tag owner repo tag x) eqn:Hx_tag; [| done].
       apply has_tag_key in Hx_tag.
       assert (x = s) as ->.
       { apply (same_image release_key (releases srv));
           [exact Htags | done | done | congruence]. }
       by rewrite Hs_draft. }
  cbn [outcome_of]. unfold attempt_after_error.
  change (status_is 404 not_found) with true. cbv iota.
  rewrite exec_createRelease_service.
  change (logged service StdLog (CreatingRelease (resolve_tag config)) srv)
    with srv.
  unfold srv_createRelease, create_request. rewrite Hrepo, Htag.
  cbn [cp_owner cp_repo cp_tag_name fst snd].
  replace (existsb (has_tag owner repo tag) (releases srv)) with true.
  2: { symmetry. apply existsb_exists. exists s. split; [done |].
       by apply has_tag_key. }
  cbn [fst snd outcome_of]. exact IH.
Qed.

Lemma well_formed_with_v1 (draft : bool) : well_formed (server_with_v1 draft).
Proof.
  repeat split.
  - repeat constructor. intros [].
  - repeat constructor. intros [].
  - repeat constructor.
Qed.

Lemma release_updates_the_published_release_witness :
  exists updated srv',
    exec service
      (release sample_util (GitHubReleaser.releaser 3) 1 sample_config)
      (server_with_v1 false)
    = (Returned updated, srv')
    /\ id updated = 1
    /\ tag_name updated = "v1"
    /\ target_commitish updated = "master"
    /\ body updated = "notes" +:+ String "010"%char "notes"
    /\ next_id srv' = 2
    /\ map stored_id (releases srv') = [1]
    /\ map release_key (releases srv') = [("owner", Some "repo", "v1")].
Proof.
  exact (release_updates_the_published_release sample_util 3 0 sample_config
           (server_with_v1 false) "owner" (Some "repo") "v1" (stored_v1 false)
           eq_refl eq_refl eq_refl (well_formed_with_v1 false)
           (or_introl eq_refl) eq_refl eq_refl).
Defined.

Lemma release_retries_forever_behind_a_draft_witness :
  exec service
    (release sample_util (GitHubReleaser.releaser 3) 40 sample_config)
    (server_with_v1 true)
  = (Exhausted, server_with_v1 true).
Proof.
  exact (release_retries_forever_behind_a_draft sample_util 3 40 sample_config
           (server_with_v1 true) "owner" (Some "repo") "v1" (stored_v1 true)
           eq_refl eq_refl eq_refl
           (proj1 (proj2 (well_formed_with_v1 true)))
           (or_introl eq_refl) eq_refl eq_refl).
Defined.

(** ** [findRelease] against the service *)

Lemma find_app_first {A} (f : A -> bool) (l1 l2 : list A) :
  List.find f (l1 ++ l2)
  = match List.find f l1 with
    | Some x => Some x
    | None => List.find f l2
    end.
Proof.
  induction l1 as [| a l1 IH]; simpl; [done |]. by destruct (f a).
Qed.

Lemma find_map_image {A B} (g : A -> B) (f : B -> bool) (l : list A) :
  List.find f (map g l) = option_map g (List.find (fun x => f (g x)) l).
Proof.
  induction l as [| a l IH]; simpl; [done |]. by destruct (f (g a)).
Qed.

Lemma NoDup_map_filter {A B} (g : A -> B) (f : A -> bool) (l : list A) :
  List.NoDup (map g l) -> List.NoDup (map g (List.filter f l)).
Proof.
  induction l as [| a l IH]; simpl; [done |].
  intros Hnodup. inversion Hnodup as [| ? ? Ha Hl]; subst.
  destruct (f a); simpl; [| by apply IH].
  constructor; [| by apply IH].
  intros Hin. apply Ha. apply in_map_iff in Hin.
  destruct Hin as (x & Hx & Hxin). apply filter_In in Hxin.
  apply in_map_iff. exists x. by destruct Hxin.
Qed.

Lemma exec_next_page_service (owner : string) (repo : option string)
    (page : nat) (srv : Server) :
  exec service (GitHubReleaser.next_page owner repo (Some page)) srv
  = (Returned
       (Some
          (map st_release
             (take 100
                (drop (pred page * 100)
                   (List.filter (same_repo owner repo) (releases srv)))),
           if bool_decide
                (pred page * 100 + 100
                 < length (List.filter (same_repo owner repo) (releases srv)))%nat
           then Some (S page) else None)),
     srv).
Proof.
  unfold GitHubReleaser.next_page. rewrite exec_bind.
  cbn [await exec service srv_listReleases lp_owner lp_repo lp_per_page
         lp_page].
  change (Z.to_nat 100) with 100%nat. cbv zeta. reflexivity.
Qed.

Lemma exec_scan_pages_service (owner : string) (repo : option string)
    (tag : string) (srv : Server) (r : Release) (fuel page : nat) :
  (1 <= page)%nat ->
  List.find (tag_matches tag)
    (map st_release
       (drop (pred page * 100)
          (List.filter (same_repo owner repo) (releases srv))))
  = Some r ->
  (length
     (drop (pred page * 100)
        (List.filter (same_repo owner repo) (releases srv)))
   <= fuel * 100)%nat ->
  exec service
    (scan_pages fuel (GitHubReleaser.allReleases owner repo) (Some page) tag)
    srv
  = (Returned (Some r), srv).
Proof.
  set (all := List.filter (same_repo owner repo) (releases srv)).
  revert page. induction fuel as [| fuel IH]; intros page Hpage Hfind Hlen.
  { destruct (drop (pred page * 100) all); [done | simpl in Hlen; lia]. }
  cbn [scan_pages]. rewrite exec_bind.
  cbn [it_next GitHubReleaser.allReleases].
  rewrite exec_next_page_service. fold all.
  set (start := (pred page * 100)%nat) in *.
  rewrite <- (take_drop 100 (drop start all)), map_app, find_app_first in Hfind.
  destruct (List.find (tag_matches tag)
              (map st_release (take 100 (drop start all)))) as [r' |] eqn:Hpage1.
  - injection Hfind as ->. reflexivity.
  - rewrite drop_drop in Hfind.
    assert (Hmore : (start + 100 < length all)%nat).
    { destruct (decide (start + 100 < length all)%nat) as [| Hshort]; [done |].
      rewrite drop_ge in Hfind by lia. done. }
    rewrite bool_decide_eq_true_2 by done.
    apply IH.
    + lia.
    + replace (pred (S page) * 100)%nat with (start + 100)%nat
        by (unfold start; lia).
      done.
    + replace (pred (S page) * 100)%nat with (start + 100)%nat
        by (unfold start; lia).
      rewrite length_drop in *. lia.
Qed.

(** X18.  The draft lookup finds what the lookup by tag cannot.  On a
    service whose list is read in pages of 100, [findRelease] with
    [draft] true returns the release that holds the tag in the
    repository, draft or not, leaving the service as it is, as long as
    [pages] pages reach to the end of the list; with [draft] false the
    same release, when it is a draft, is reported as not found. *)
Theorem findRelease_finds_a_draft_by_scanning
    (pages : nat) (params : FindParams) (srv : Server) (s : Stored) :
  unique_tags srv ->
  In s (releases srv) ->
  release_key s = (fp_owner params, fp_repo params, fp_tag params) ->
  (length (releases srv) <= pages * 100)%nat ->
  (fp_draft params = true ->
     exec service (GitHubReleaser.findRelease pages params) srv
     = (Returned (st_release s), srv))
  /\ (fp_draft params = false -> st_draft s = true ->
      exec service (GitHubReleaser.findRelease pages params) srv
      = (Threw not_found, srv)).
Proof.
  intros Htags Hs Hkey Hpages.
  assert (Hs_tag : has_tag (fp_owner params) (fp_repo params) (fp_tag params) s
                   = true) by by apply has_tag_key.
  split.
  - intros Hdraft.
    set (all := List.filter (same_repo (fp_owner params) (fp_repo params))
                  (releases srv)).
    assert (Hs_all : In s all).
    { apply filter_In. split; [done |].
      unfold has_tag in Hs_tag. by apply andb_true_iff in Hs_tag as [? _]. }
    assert (Hfind : List.find (tag_matches (fp_tag params)) (map st_release all)
                    = Some (st_release s)).
    { rewrite find_map_image.
      rewrite (find_the_one release_key _ all s); [done | | done | |].
      - by apply NoDup_map_filter.
      - unfold has_tag in Hs_tag. by apply andb_true_iff in Hs_tag as [_ ?].
      - intros x Hx Hx_tag. apply filter_In in Hx. destruct Hx as [_ Hx_repo].
        rewrite Hkey. apply has_tag_key. unfold has_tag.
        unfold tag_matches in Hx_tag. by rewrite Hx_repo, Hx_tag. }
    unfold GitHubReleaser.findRelease. rewrite Hdraft.
    rewrite exec_bind, exec_bind.
    cbn [perform exec service console GitHubE_console].
    cbn [it_start GitHubReleaser.allReleases].
    rewrite (exec_scan_pages_service _ _ _ srv (st_release s) pages 1);
      [done | lia | done |].
    pose proof (filter_length_le
                  (same_repo (fp_owner params) (fp_repo params))
                  (releases srv)) as Hshorter.
    change (pred 1 * 100)%nat with 0%nat. rewrite ?drop_0. lia.
  - intros Hdraft Hs_draft. rewrite exec_findRelease_by_tag by done.
    unfold srv_getReleaseByTag. rewrite find_absent; [done |].
    intros x Hx. cbn.
    destruct (has_tag _ _ _ x) eqn:Hx_tag; [| done].
    apply has_tag_key in Hx_tag.
    assert (x = s) as ->.
    { apply (same_image release_key (releases srv));
        [exact Htags | done | done | congruence]. }
    by rewrite Hs_draft.
Qed.

Lemma findRelease_finds_a_draft_by_scanning_witness :
  exec service (GitHubReleaser.findRelease 3 draft_lookup)
    (server_with_v1 true)
  = (Returned created_release, server_with_v1 true)
  /\ exec service (GitHubReleaser.findRelease 3 plain_lookup)
       (server_with_v1 true)
     = (Threw not_found, server_with_v1 true).
Proof.
  split.
  - exact (proj1 (findRelease_finds_a_draft_by_scanning 3 draft_lookup
             (server_with_v1 true) (stored_v1 true)
             (proj1 (proj2 (well_formed_with_v1 true)))
             (or_introl eq_refl) eq_refl ltac:(simpl; lia)) eq_refl).
  - exact (proj2 (findRelease_finds_a_draft_by_scanning 3 plain_lookup
             (server_with_v1 true) (stored_v1 true)
             (proj1 (proj2 (well_formed_with_v1 true)))
             (or_introl eq_refl) eq_refl ltac:(simpl; lia)) eq_refl eq_refl).
Defined.

(** ** The uploads of [run] *)

(** X19.  The [forEach] over the files sends one upload per file, in the
    order of the files, each to the upload target of the release and each
    with the asset read from its path; and it completes whatever the
    uploads answer: a failed upload is not thrown to [run]. *)
Theorem uploads_are_sent_and_forgotten
    {W : Type} (h : Handler GitHubE W) (u : Util) (url : string)
    (files : list string) (w : W) :
  uploaded
    (trace h (for_each files (fun path => detached (upload u url path))) w)
  = map (fun path => (url, asset u path)) files
  /\ (exec h (for_each files (fun path => detached (upload u url path))) w).1
     = Returned tt.
Proof.
  revert w. induction files as [| path files IH]; intros w; [done |].
  cbn [for_each]. rewrite trace_bind, exec_bind.
  assert (Hone : forall w,
    (exec h (detached (upload u url path)) w).1 = Returned tt
    /\ uploaded (trace h (detached (upload u url path)) w)
       = [(url, asset u path)]).
  { intros w0. unfold detached, upload. cbn.
    destruct (h unit _ w0) as [[] w1].
    destruct (h (Result unit) _ w1) as [[[] | e] w2]; done. }
  destruct (Hone w) as [Hout Hsent].
  destruct (exec h (detached (upload u url path)) w) as [o w1].
  simpl in Hout. subst o. unfold uploaded in *.
  rewrite omap_app, Hsent. destruct (IH w1) as [IHsent IHout].
  rewrite IHsent. done.
Qed.

(** ** [release]: tag and name given as inputs *)

(** X20.  A tag name given as input wins over the ref, whatever the
    release name is: with a non-empty tag name, [release] looks up under
    that tag first, the update that follows a successful lookup and the
    creation that follows a 404 carry it, and so does every other call.
    Independently, a release name given as input wins over the tag: with
    a non-empty name, that update and that creation carry the name, and
    so does every other creation and update. *)
Theorem release_uses_the_inputs
    {W : Type} (h : Handler ReleaserE W) (u : Util) (fuel : nat)
    (config : Config) (w : W) :
  (forall tag : string,
     input_tag_name config = Some tag -> tag <> "" ->
     resolve_tag config = tag
     /\ Forall (uses_tag tag) (trace h (release u recording fuel config) w)
     /\ (forall n, fuel = S n ->
           exists x rest,
             trace h (release u recording fuel config) w
             = Observed (FindReleaseCall
                 {| fp_owner := (destructure_repository (github_repository config)).1;
                    fp_repo := (destructure_repository (github_repository config)).2;
                    fp_tag := tag;
                    fp_draft := truthy_flag (input_draft config) |}) x :: rest)
     /\ (forall n existing w1, fuel = S n ->
           h _ (FindReleaseCall (find_request config)) w = (Ok existing, w1) ->
           exists p x rest,
             trace h (release u recording fuel config) w
             = Observed (FindReleaseCall (find_request config)) (Ok existing)
               :: Observed (UpdateReleaseCall p) x :: rest
             /\ up_tag_name p = Some tag
             /\ up_release_id p = id existing)
     /\ (forall n e w1, fuel = S n ->
           h _ (FindReleaseCall (find_request config)) w = (Err e, w1) ->
           status_is 404 e = true ->
           exists p x rest,
             trace h (release u recording fuel config) w
             = Observed (FindReleaseCall (find_request config)) (Err e)
               :: Observed (ReleaserConsole StdLog (CreatingRelease tag)) tt
               :: Observed (CreateReleaseCall p) x :: rest
             /\ cp_tag_name p = tag))
  /\ (forall name : string,
      input_name config = Some name -> name <> "" ->
      Forall (uses_name name) (trace h (release u recording fuel config) w)
      /\ (forall n existing w1, fuel = S n ->
            h _ (FindReleaseCall (find_request config)) w = (Ok existing, w1) ->
            exists p x rest,
              trace h (release u recording fuel config) w
              = Observed (FindReleaseCall (find_request config)) (Ok existing)
                :: Observed (UpdateReleaseCall p) x :: rest
              /\ up_name p = Some name
              /\ up_release_id p = id existing)
      /\ (forall n e w1, fuel = S n ->
            h _ (FindReleaseCall (find_request config)) w = (Err e, w1) ->
            status_is 404 e = true ->
            exists p x rest,
              trace h (release u recording fuel config) w
              = Observed (FindReleaseCall (find_request config)) (Err e)
                :: Observed
                     (ReleaserConsole StdLog
                        (CreatingRelease (resolve_tag config))) tt
                :: Observed (CreateReleaseCall p) x :: rest
              /\ cp_name p = name)).
Proof.
  split.
  - intros tag Htag Htag_given.
    assert (Hresolved : resolve_tag config = tag).
    { unfold resolve_tag, or_string. rewrite Htag.
      apply String.eqb_neq in Htag_given. by rewrite Htag_given. }
    repeat split.
    + done.
    + rewrite <- Hresolved. apply always_trace, release_uses_tag.
    + intros n ->.
      destruct (release_looks_up_first h u n config w) as (x & rest & Htrace).
      exists x, rest. rewrite Htrace. unfold find_request.
      by rewrite Hresolved.
    + intros n existing w1 -> Hfind.
      destruct (release_then_updates h u n config w w1 existing Hfind)
        as (x & rest & Htrace).
      exists (update_request u config existing), x, rest.
      split; [done |]. simpl. by rewrite Hresolved.
    + intros n e w1 -> Hfind H404.
      destruct (release_then_creates h u n config w w1 e Hfind H404)
        as (x & rest & Htrace).
      exists (create_request u config), x, rest.
      rewrite <- Hresolved. split; done.
  - intros name Hname Hname_given.
    assert (Hnamed : or_string (input_name config) (resolve_tag config) = name).
    { unfold or_string. rewrite Hname.
      apply String.eqb_neq in Hname_given. by rewrite Hname_given. }
    repeat split.
    + rewrite <- Hnamed. apply always_trace, release_uses_name.
    + intros n existing w1 -> Hfind.
      destruct (release_then_updates h u n config w w1 existing Hfind)
        as (x & rest & Htrace).
      exists (update_request u config existing), x, rest.
      split; [done |]. simpl. by rewrite Hnamed.
    + intros n e w1 -> Hfind H404.
      destruct (release_then_creates h u n config w w1 e Hfind H404)
        as (x & rest & Htrace).
      exists (create_request u config), x, rest.
      split; [done |]. simpl. by rewrite Hnamed.
Qed.

Lemma release_uses_the_inputs_witness :
  (resolve_tag tagged_config = "v2"
   /\ Forall (uses_tag "v2")
        (trace double (release sample_util recording 2 tagged_config)
           retry_double)
   /\ (exists p x rest,
         trace double (release sample_util recording 2 tagged_config)
           retry_double
         = Observed (FindReleaseCall (find_request tagged_config))
             (Err not_found)
           :: Observed (ReleaserConsole StdLog (CreatingRelease "v2")) tt
           :: Observed (CreateReleaseCall p) x :: rest
         /\ cp_tag_name p = "v2")
   /\ (exists p x rest,
         trace double (release sample_util recording 1 tagged_config)
           update_double
         = Observed (FindReleaseCall (find_request tagged_config))
             (Ok sample_release)
           :: Observed (UpdateReleaseCall p) x :: rest
         /\ up_tag_name p = Some "v2"
         /\ up_release_id p = id sample_release))
  /\ (Forall (uses_name "First release")
        (trace double (release sample_util recording 2 titled_config)
           retry_double)
      /\ (exists p x rest,
            trace double (release sample_util recording 2 titled_config)
              retry_double
            = Observed (FindReleaseCall (find_request titled_config))
                (Err not_found)
              :: Observed
                   (ReleaserConsole StdLog
                      (CreatingRelease (resolve_tag titled_config))) tt
              :: Observed (CreateReleaseCall p) x :: rest
            /\ cp_name p = "First release")
      /\ (exists p x rest,
            trace double (release sample_util recording 1 titled_config)
              update_double
            = Observed (FindReleaseCall (find_request titled_config))
                (Ok sample_release)
              :: Observed (UpdateReleaseCall p) x :: rest
            /\ up_name p = Some "First release"
            /\ up_release_id p = id sample_release)).
Proof.
  pose proof (release_uses_the_inputs double sample_util 2 tagged_config
                retry_double) as [Htag _].
  pose proof (release_uses_the_inputs double sample_util 1 tagged_config
                update_double) as [Htag' _].
  pose proof (release_uses_the_inputs double sample_util 2 titled_config
                retry_double) as [_ Hname].
  pose proof (release_uses_the_inputs double sample_util 1 titled_config
                update_double) as [_ Hname'].
  specialize (Htag "v2" eq_refl ltac:(discriminate)).
  specialize (Htag' "v2" eq_refl ltac:(discriminate)).
  specialize (Hname "First release" eq_refl ltac:(discriminate)).
  specialize (Hname' "First release" eq_refl ltac:(discriminate)).
  destruct Htag as (Hresolved & Hcalls & _ & _ & Hcreate).
  destruct Htag' as (_ & _ & _ & Hupdate & _).
  destruct Hname as (Hnames & _ & Hcreate').
  destruct Hname' as (_ & Hupdate' & _).
  split.
  - split; [assumption |]. split; [assumption |]. split.
    + exact (Hcreate 1%nat not_found _ eq_refl eq_refl eq_refl).
    + exact (Hupdate 0%nat sample_release _ eq_refl eq_refl).
  - split; [assumption |]. split.
    + exact (Hcreate' 1%nat not_found _ eq_refl eq_refl eq_refl).
    + exact (Hupdate' 0%nat sample_release _ eq_refl eq_refl).
Defined.
